(** * pfunk: the Pints functional-testing harness

    A shallow embedding of [pfunk/__init__.py], [pfunk/tests/geweke_mcmc.py]
    and [pfunk/tests/mcmc_banana.py], and the properties of the harness that
    follow from it.

    Conventions of the embedding.
    - A Python [str] is a list of Unicode code points ([str := list N]);
      ASCII literals of the source are written [lit "..."].
    - A Python [int] is a [Z]; a Python [float] is idealised as a rational
      [Q] (the harness only stores, subtracts and compares such values).
    - A call that may raise returns an [outcome]; the result dictionary a
      test writes to is threaded as explicit state, and it keeps the fields
      already written when the call raises (the dictionary is mutated in
      place).
    - The library under test (pints), numpy's random generator, the clock
      and the git checkout are outside the repository: they are an abstract
      world [W] with one oracle per entry point. *)

From Stdlib Require Import ZArith QArith Qabs Ascii String List Lia.
From stdpp Require Import gmap strings list pretty.

Local Open Scope Z_scope.
#[local] Set Warnings "-clear-no-such-hyp".

(* ===================================================================== *)
(** ** Python values                                                      *)
(* ===================================================================== *)

Module Py.

Definition codepoint := N.
Definition str := list codepoint.

Definition chr (a : ascii) : codepoint := N_of_ascii a.

(** An ASCII literal of the source as a [str]. *)
Fixpoint lit (s : string) : str :=
  match s with
  | EmptyString => []
  | String a s' => chr a :: lit s'
  end.

(** [str(n)] for an [int]: decimal digits, with a leading minus sign. *)
Definition str_of_int (n : Z) : str := lit (pretty n).

Inductive exn :=
| ValueError | IndexError | TypeError | AttributeError | ImportError
| AssertionError | OverflowError
| InvalidNameError | MissingFieldError | SyncError
| LibraryError.   (* any failure raised inside the library under test *)

Inductive outcome (A : Type) :=
| Ok (a : A)
| Raise (e : exn).
Arguments Ok {A} a.
Arguments Raise {A} e.

Definition obind {A B} (o : outcome A) (k : A -> outcome B) : outcome B :=
  match o with
  | Ok a => k a
  | Raise e => Raise e
  end.

(** [len(range(start, stop, step))], as CPython computes it. *)
Definition range_len (start stop step : Z) : Z :=
  if 0 <? step then
    if start <? stop then (stop - start - 1) / step + 1 else 0
  else
    if stop <? start then (start - stop - 1) / (- step) + 1 else 0.

(** [list(range(start, stop, step))]; a zero step is a [ValueError]. *)
Definition range (start stop step : Z) : outcome (list Z) :=
  if step =? 0 then Raise ValueError
  else Ok (map (fun k : nat => start + Z.of_nat k * step)
               (seq 0 (Z.to_nat (range_len start stop step)))).

(** A slice bound, clamped as [PySlice_AdjustIndices] does for step 1. *)
Definition clamp (n : nat) (i : Z) : nat :=
  if i <? 0 then Z.to_nat (Z.max 0 (i + Z.of_nat n))
  else Z.to_nat (Z.min i (Z.of_nat n)).

(** [l[i:j]] *)
Definition slice {A} (l : list A) (i j : Z) : list A :=
  drop (clamp (length l) i) (take (clamp (length l) j) l).

(** [l[i:]] *)
Definition slice_from {A} (l : list A) (i : Z) : list A :=
  drop (clamp (length l) i) l.

(** [q + r / 2 ^ sh], for [0 <= r < 2 ^ sh] and [0 < sh], rounded to the
    nearest integer, and to the even one when it lies half way. *)
Definition round_half_even (q r sh : Z) : Z :=
  let half := 2 ^ (sh - 1) in
  if r <? half then q
  else if half <? r then q + 1
  else if Z.even q then q else q + 1.

(** [int(n / 2)] under [from __future__ import division]. The quotient of
    two [int]s is the float nearest to the exact quotient: below 2^53 the
    halves are floats and [int] cuts the half off, towards zero; from 2^53 on
    the quotient is rounded to 53 significant bits, and a float of 2^1024 or
    more is an [OverflowError]. *)
Definition int_half (n : Z) : outcome Z :=
  let a := Z.abs n in
  if a <? 2 ^ 53 then Ok (Z.quot n 2)
  else
    let sh := Z.log2 a - 52 in
    let v := round_half_even (a / 2 ^ sh) (a mod 2 ^ sh) sh * 2 ^ (sh - 1) in
    if 2 ^ 1024 <=? v then Raise OverflowError else Ok (Z.sgn n * v).

End Py.
Import Py.

(* ===================================================================== *)
(** ** Regular expressions, as far as [NAME_FORMAT] uses them             *)
(* ===================================================================== *)

Module Re.

(** A character set: a bracket expression of ranges, or the class [\w]. *)
Inductive charset :=
| Ranges (rs : list (codepoint * codepoint))
| Word.

(** The items of a pattern: [^], [$], one character of a set, and a set
    under a (greedy) star. *)
Inductive item :=
| Bol
| Eol
| One (cs : charset)
| Many (cs : charset).

Definition pattern := list item.

Definition in_range (c : codepoint) (r : codepoint * codepoint) : bool :=
  ((fst r <=? c) && (c <=? snd r))%N.

Definition ascii_alnum (c : codepoint) : bool :=
  in_range c (chr "0", chr "9") || in_range c (chr "A", chr "Z")
  || in_range c (chr "a", chr "z").

Section Matching.

(** [str.isalnum] on the code points from 128 on: the Unicode character
    database, which is not part of the repository. *)
Variable unicode_alnum : codepoint -> bool.

(** For a [str] pattern, [\w] is [c.isalnum() or c == '_']. *)
Definition word_char (c : codepoint) : bool :=
  if (c <? 128)%N then ascii_alnum c || (c =? chr "_")%N
  else unicode_alnum c.

Definition in_charset (cs : charset) (c : codepoint) : bool :=
  match cs with
  | Ranges rs => existsb (in_range c) rs
  | Word => word_char c
  end.

(** Without [re.MULTILINE], [$] matches at the end of the string and just
    before a newline that ends the string. *)
Definition at_eol (s : str) : bool :=
  match s with
  | [] => true
  | [c] => (c =? 10)%N
  | _ => false
  end.

(** [match_here p bos s]: [p] matches a prefix of [s]; [bos] tells whether
    [s] starts at the beginning of the subject. *)
Fixpoint match_here (p : pattern) (bos : bool) (s : str) {struct p} : bool :=
  match p with
  | [] => true
  | Bol :: p' => bos && match_here p' bos s
  | Eol :: p' => at_eol s && match_here p' bos s
  | One cs :: p' =>
      match s with
      | c :: s' => in_charset cs c && match_here p' false s'
      | [] => false
      end
  | Many cs :: p' =>
      (fix star (bos : bool) (s : str) {struct s} : bool :=
         match s with
         | c :: s' =>
             (in_charset cs c && star false s') || match_here p' bos s
         | [] => match_here p' bos []
         end) bos s
  end.

(** [pattern.match(s) is not None] *)
Definition re_match (p : pattern) (s : str) : bool := match_here p true s.

End Matching.

End Re.

(* ===================================================================== *)
(** ** Stateful calls that may raise                                      *)
(* ===================================================================== *)

Module Eff.

(** A computation over a mutable Python object of type [S] (a dictionary,
    the module's globals) and the outside world [W]. The state reached is
    returned on both exits: what was written before a [raise] stays
    written. *)
Definition M (S W A : Type) : Type := S -> W -> outcome A * S * W.

Definition ret {S W A} (a : A) : M S W A := fun s w => (Ok a, s, w).

Definition bind {S W A B} (c : M S W A) (k : A -> M S W B) : M S W B :=
  fun s w =>
    match c s w with
    | (Ok a, s', w') => k a s' w'
    | (Raise e, s', w') => (Raise e, s', w')
    end.

Definition raise {S W A} (e : exn) : M S W A := fun s w => (Raise e, s, w).

Definition get {S W} : M S W S := fun s w => (Ok s, s, w).

Definition modify {S W} (f : S -> S) : M S W unit := fun s w => (Ok tt, f s, w).

(** A call into the outside world. *)
Definition call {S W A} (f : W -> outcome A * W) : M S W A :=
  fun s w => let (o, w') := f w in (o, s, w').

(** A pure expression that may raise. *)
Definition eval {S W A} (o : outcome A) : M S W A := fun s w => (o, s, w).

(** [[f(x) for x in xs]] *)
Fixpoint for_each {S W A B} (f : A -> M S W B) (xs : list A) : M S W (list B) :=
  match xs with
  | [] => ret []
  | x :: xs' =>
      bind (f x) (fun y => bind (for_each f xs') (fun ys => ret (y :: ys)))
  end.

Module Notations.
Declare Scope eff_scope.
Delimit Scope eff_scope with eff.
Notation "x <- c ;; k" := (bind c (fun x => k))
  (at level 100, c at next level, right associativity) : eff_scope.
Notation "c ;; k" := (bind c (fun _ => k))
  (at level 100, right associativity) : eff_scope.
End Notations.

End Eff.
Import Eff Eff.Notations.

(* ===================================================================== *)
(** ** [pfunk/__init__.py]                                                *)
(* ===================================================================== *)

Module Pfunk.

(** *** Date formatting *)

Record struct_time := {
  tm_year : Z; tm_mon : Z; tm_mday : Z;
  tm_hour : Z; tm_min : Z; tm_sec : Z;
  tm_wday : Z; tm_yday : Z; tm_isdst : Z
}.

(** The bounds of a C [int]. *)
Definition INT_MIN : Z := - 2 ^ 31.
Definition INT_MAX : Z := 2 ^ 31 - 1.

Definition fits_int (n : Z) : bool := (INT_MIN <=? n) && (n <=? INT_MAX).

(** [time.strftime] reads the nine fields as C [int]s and counts the years
    from 1900; a field or a year it cannot hold is an [OverflowError]. *)
Definition tm_fits_int (t : struct_time) : bool :=
  fits_int (tm_year t) && fits_int (tm_mon t) && fits_int (tm_mday t)
  && fits_int (tm_hour t) && fits_int (tm_min t) && fits_int (tm_sec t)
  && fits_int (tm_wday t) && fits_int (tm_yday t) && fits_int (tm_isdst t)
  && (INT_MIN + 1900 <=? tm_year t).

(** The ranges [time.strftime] accepts; outside them it raises
    [ValueError]. The day of the week is taken as [(tm_wday + 1) % 7] in C
    arithmetic, which must not be negative. *)
Definition tm_in_range (t : struct_time) : bool :=
  (0 <=? tm_mon t) && (tm_mon t <=? 12)
  && (0 <=? tm_mday t) && (tm_mday t <=? 31)
  && (0 <=? tm_hour t) && (tm_hour t <=? 23)
  && (0 <=? tm_min t) && (tm_min t <=? 59)
  && (0 <=? tm_sec t) && (tm_sec t <=? 61)
  && (tm_wday t <? INT_MAX) && (0 <=? Z.rem (tm_wday t + 1) 7)
  && (0 <=? tm_yday t) && (tm_yday t <=? 366).

(** The times [time.strftime] formats. *)
Definition tm_accepted (t : struct_time) : bool :=
  tm_fits_int t && tm_in_range t.

(** A field printed on two digits. *)
Definition two_digits (n : Z) : str :=
  if n <? 10 then lit "0" ++ str_of_int n else str_of_int n.

(** The conversions of the C library that [DATE_FORMAT] uses. A month or a
    day of zero is printed as one. *)
Definition directive (d : codepoint) (t : struct_time) : option str :=
  if (d =? chr "Y")%N then Some (str_of_int (tm_year t))
  else if (d =? chr "m")%N then Some (two_digits (Z.max 1 (tm_mon t)))
  else if (d =? chr "d")%N then Some (two_digits (Z.max 1 (tm_mday t)))
  else if (d =? chr "H")%N then Some (two_digits (tm_hour t))
  else if (d =? chr "M")%N then Some (two_digits (tm_min t))
  else if (d =? chr "S")%N then Some (two_digits (tm_sec t))
  else if (d =? chr "%")%N then Some (lit "%")
  else None.

Fixpoint expand (fmt : str) (t : struct_time) : outcome str :=
  match fmt with
  | [] => Ok []
  | c :: fmt' =>
      if (c =? chr "%")%N then
        match fmt' with
        | d :: fmt'' =>
            match directive d t with
            | Some s => obind (expand fmt'' t) (fun r => Ok (s ++ r))
            | None => Raise ValueError
            end
        | [] => Raise ValueError
        end
      else obind (expand fmt' t) (fun r => Ok (c :: r))
  end.

(** [time.strftime(format, t)] *)
Definition time_strftime (fmt : str) (t : struct_time) : outcome str :=
  if tm_fits_int t then
    if tm_in_range t then expand fmt t else Raise ValueError
  else Raise OverflowError.

Definition DATE_FORMAT : str := lit "%Y-%m-%d-%H:%M:%S".

(** [date(when=None)]. A [struct_time] is a non-empty tuple, hence true;
    [localtime] is the reading of the clock that [time.strftime] takes when
    it is given no time. *)
Definition date (localtime : struct_time) (when : option struct_time)
  : outcome str :=
  match when with
  | Some t => time_strftime DATE_FORMAT t
  | None => time_strftime DATE_FORMAT localtime
  end.

(** *** Test and plot name format *)

(** [re.compile(r'^[a-zA-Z]\w*$')] *)
Definition NAME_FORMAT : Re.pattern :=
  [ Re.Bol;
    Re.One (Re.Ranges [(chr "a", chr "z"); (chr "A", chr "Z")]);
    Re.Many Re.Word;
    Re.Eol ].

(** Modelled from the spec: [validate_name], the check that applies
    [NAME_FORMAT] (it is made in [pfunk/test.py], outside the files embedded
    here). Section 4.1: "[validate_name(name) -> name |
    fails(InvalidNameError)]. A name is valid iff it matches
    [^[A-Za-z]\w*$]." *)
Definition validate_name (unicode_alnum : codepoint -> bool) (name : str)
  : outcome str :=
  if Re.re_match unicode_alnum NAME_FORMAT name then Ok name
  else Raise InvalidNameError.

(** *** Pints version and repo *)

(** The module's globals that [prepare_pints] reads and writes. *)
Record globals := {
  PINTS_COMMIT : option str;
  PINTS_VERSION : option str;
  sys_path : list str
}.

Definition set_commit (h : str) (g : globals) : globals :=
  {| PINTS_COMMIT := Some h;
     PINTS_VERSION := PINTS_VERSION g;
     sys_path := sys_path g |}.

Definition set_version (v : str) (g : globals) : globals :=
  {| PINTS_COMMIT := PINTS_COMMIT g;
     PINTS_VERSION := Some v;
     sys_path := sys_path g |}.

Definition path_insert0 (d : str) (g : globals) : globals :=
  {| PINTS_COMMIT := PINTS_COMMIT g;
     PINTS_VERSION := PINTS_VERSION g;
     sys_path := d :: sys_path g |}.

(** The calls [prepare_pints] makes into [pfunk.git] and into the checked
    out [pints] package. *)
Record Checkout (W : Type) := {
  pints_refresh : W -> outcome unit * W;           (* git.pints_refresh() *)
  pints_hash : W -> outcome str * W;               (* git.pints_hash() *)
  import_pints : list str -> W -> outcome str * W; (* import pints; pints.__path__[0] *)
  pints_version : W -> outcome str * W             (* pints.version(formatted=True) *)
}.
Arguments pints_refresh {W}.
Arguments pints_hash {W}.
Arguments import_pints {W}.
Arguments pints_version {W}.

Section PreparePints.

Context {W : Type} (env : Checkout W).
(** [os.path.join(DIR_PFUNK, 'pints')] and
    [os.path.join(DIR_PINTS_REPO, 'pints')]: they depend on where the
    package is installed. *)
Variables DIR_PINTS_REPO DIR_PINTS_MODULE : str.

Definition prepare_pints : M globals W unit :=
  (g <- get ;;
   match PINTS_COMMIT g with
   | None =>
       call (pints_refresh env) ;;
       h <- call (pints_hash env) ;;
       modify (set_commit h)
   | Some _ => ret tt
   end ;;
   g <- get ;;
   match PINTS_VERSION g with
   | None =>
       modify (path_insert0 DIR_PINTS_REPO) ;;
       g' <- get ;;
       path0 <- call (import_pints env (sys_path g')) ;;
       (if bool_decide (path0 = DIR_PINTS_MODULE) then ret tt
        else raise AssertionError) ;;
       v <- call (pints_version env) ;;
       modify (set_version v)
   | Some _ => ret tt
   end)%eff.

End PreparePints.

(** *** Results *)

Inductive value :=
| VStr (s : str)
| VInt (n : Z)
| VFloat (x : Q)
| VInts (l : list Z)
| VFloats (l : list Q).

(** A result is the dictionary a test writes its fields to. *)
Abbreviation Result := (gmap string value).

(** [result[key] = v] *)
Definition setitem {W} (key : string) (v : value) : M Result W unit :=
  modify (fun r : Result => <[key := v]> r).

(** The lifecycle states of section 3 that end a run. *)
Definition is_terminal (r : Result) : bool :=
  match r !! "status" with
  | Some (VStr s) =>
      bool_decide (s = lit "done") || bool_decide (s = lit "failed")
      || bool_decide (s = lit "errored")
  | _ => false
  end.

(** The most recent terminal result of a history (oldest first). *)
Definition latest (history : list Result) : option Result :=
  last (List.filter is_terminal history).

Definition as_number (v : value) : option Q :=
  match v with
  | VInt n => Some (inject_Z n)
  | VFloat x => Some x
  | _ => None
  end.

(** Modelled from the spec: [pfunk.assert_not_deviated_from], which both
    tests call and which is defined outside the files embedded here.
    Section 4.5,
    [not_deviated(expected, threshold, history, field)]: "Reads [field] from
    the most recent terminal Result in [history]; fails with
    [MissingFieldError] if absent from the latest Result. Computes
    [abs(value - expected) <= threshold]; returns true (pass) iff within
    tolerance." On a history without a terminal result it passes by default,
    the first of the two policies section 8 allows; a field that holds no
    number cannot be subtracted from. *)
Definition assert_not_deviated_from
    (expected threshold : Q) (history : list Result) (field : string)
  : outcome bool :=
  match latest history with
  | None => Ok true
  | Some r =>
      match r !! field with
      | None => Raise MissingFieldError
      | Some v =>
          match as_number v with
          | Some x => Ok (Qle_bool (Qabs (x - expected)) threshold)
          | None => Raise TypeError
          end
      end
  end.

(** Modelled from the spec: the analysis step of the TestRunner and the
    batch around it ([pfunk/test.py] and the command line, outside the files
    embedded here). Section 7: a [MissingFieldError] is "surfaced as an
    analysis failure (test fails)"; "per-test failures are isolated (one
    test's error does not stop the batch)"; "batch exit status reflects
    whether any test's [analyze] returned false or errored". *)
Record TestCase := {
  test_name : str;
  analyse : list Result -> outcome bool
}.

Definition passes (a : outcome bool) : bool :=
  match a with
  | Ok b => b
  | Raise _ => false
  end.

(** Section 4.2: [history(test_name)] is empty for a test that never ran. *)
Definition history (store : gmap str (list Result)) (name : str) : list Result :=
  default [] (store !! name).

Definition analyse_test (store : gmap str (list Result)) (t : TestCase) : bool :=
  passes (analyse t (history store (test_name t))).

Definition analyse_batch (store : gmap str (list Result)) (tests : list TestCase)
  : list bool :=
  map (analyse_test store) tests.

Definition exit_status (verdicts : list bool) : Z :=
  if forallb id verdicts then 0 else 1.

(** *** Python version *)

(** [sys.version.replace('\n', '')]: every newline is dropped. *)
Definition PYTHON_VERSION (sys_version : str) : str :=
  List.filter (fun c => negb (c =? 10)%N) sys_version.

(** *** Plots *)

(** The two plots of [pfunk.plot] that the tests ask for. The module is
    outside the files embedded here: a figure is kept as the call that asks
    for it. A threshold of [None] is an argument left out. *)
Inductive figure :=
| variable (results : list Result) (field : string) (title ylabel : str)
    (threshold : option Q)
| convergence (results : list Result) (xfield yfield : string)
    (title xlabel ylabel : str) (ymin ymax : Z).

End Pfunk.
Import Pfunk.

(* ===================================================================== *)
(** ** The library under test                                             *)
(* ===================================================================== *)

Module Pints.

Definition vector := list Q.
Definition matrix := list vector.

(** What the two tests ask of pints, numpy and matplotlib. Sampling is
    random and the sampler classes are late bound; every entry may raise.
    Messages to the log and to the screen are left out. *)
Record Library (W : Type) := {
  method : Type;
  controller : Type;
  (* import pints, pints.toy, numpy and logging, at the head of
     Geweke._run *)
  import_geweke : W -> outcome unit * W;
  (* getattr(pints, name) *)
  getattr : str -> W -> outcome method * W;
  (* the check of the number of chains against pints.SingleChainMCMC and
     pints.MultiChainMCMC *)
  check_chains : method -> Z -> W -> outcome unit * W;
  (* toy.LogisticModel(), np.linspace(0, 1000, 1000) and
     pints.UniformLogPrior(...) *)
  toy_problem : W -> outcome unit * W;
  (* model.n_parameters() *)
  n_parameters : W -> outcome Z * W;
  (* np.empty((rows, columns)) with no negative dimension *)
  allocate : Z -> Z -> W -> outcome unit * W;
  (* log_prior.sample(n): [n] rows, each as wide as the arrays of the
     test *)
  prior_sample : Z -> W -> outcome matrix * W;
  (* the loop over the marginal-conditional sample: its running means and
     variances *)
  marginal_moments : matrix -> Z -> W -> outcome (matrix * matrix) * W;
  (* Geweke._successive_conditional_simulator(method, model, parameters,
     times, log_prior), for a test with [nchains] chains, and the store of
     its sample in theta2_samples *)
  successive_conditional_simulator :
    method -> Z -> vector -> W -> outcome vector * W;
  (* iteration i of the successive-conditional loop, after the sample is
     stored: the running mean and variance and the row of g_samples *)
  running_statistic :
    matrix * matrix -> matrix -> Z -> W -> outcome vector * W;
  (* pints.plot.trace([g_samples]); plt.show() *)
  plot_trace : matrix -> W -> outcome unit * W;
  (* import pints, pints.toy and the three import fallbacks, at the head of
     MCMCBanana._run *)
  import_names : W -> outcome unit * W;
  (* TwistedGaussianLogPDF(dimension=2, b=0.1) and
     MultivariateGaussianLogPrior([0, 0], [[10, 0], [0, 10]]) *)
  banana_problem : W -> outcome unit * W;
  (* MCMCController(log_pdf, nchains, x0, method=method), set_parallel and
     the two log settings *)
  controller_new :
    method -> Z -> matrix -> str -> W -> outcome controller * W;
  (* set_max_iterations(n_iter), the initial phase when the method needs
     one, and run() *)
  controller_run : controller -> Z -> W -> outcome (list matrix) * W;
  (* pfunk.weave(chains) *)
  weave : list matrix -> outcome matrix;
  (* log_pdf.kl_divergence(samples) *)
  kl_divergence : matrix -> W -> outcome Q * W;
  (* pints.effective_sample_size(chain) *)
  effective_sample_size : matrix -> W -> outcome (list Q) * W
}.
Arguments method {W}.
Arguments controller {W}.
Arguments import_geweke {W}.
Arguments getattr {W}.
Arguments check_chains {W}.
Arguments toy_problem {W}.
Arguments n_parameters {W}.
Arguments allocate {W}.
Arguments prior_sample {W}.
Arguments marginal_moments {W}.
Arguments successive_conditional_simulator {W}.
Arguments running_statistic {W}.
Arguments plot_trace {W}.
Arguments import_names {W}.
Arguments banana_problem {W}.
Arguments controller_new {W}.
Arguments controller_run {W}.
Arguments weave {W}.
Arguments kl_divergence {W}.
Arguments effective_sample_size {W}.

End Pints.
Import Pints.

(* ===================================================================== *)
(** ** A sampler of the library under test                                *)
(* ===================================================================== *)

Module Sampler.

(** The values that go between the test and a sampler: a number, a point
    of the parameter space, or one point for each chain. *)
Inductive pyobj :=
| Scalar (x : Q)
| Point (x : vector)
| Points (xs : matrix).

(** [for xi in x]: a number cannot be iterated over. *)
Definition elements (x : pyobj) : outcome (list pyobj) :=
  match x with
  | Scalar _ => Raise TypeError
  | Point v => Ok (map Scalar v)
  | Points xs => Ok (map Point xs)
  end.

(** What [tell] is given: one score, or a list with a score for each
    element of the proposal. *)
Inductive scores :=
| One (fx : Q)
| Each (fxs : list Q).

(** The calls [Geweke._successive_conditional_simulator] makes. *)
Record Api (W : Type) := {
  method : Type;
  mcmc : Type;
  posterior : Type;
  (* lines 52 to 65: the toy data with its noise, the problem, the
     likelihood and the posterior *)
  make_posterior : vector -> W -> outcome posterior * W;
  (* issubclass(method, pints.MultiChainMCMC) *)
  issubclass_multi : method -> outcome bool;
  (* isinstance(method, pints.MultiChainMCMC) *)
  isinstance_multi : method -> bool;
  (* method(nchains, parameters) *)
  new_multi : method -> Z -> vector -> W -> outcome mcmc * W;
  (* method(parameters) *)
  new_single : method -> vector -> W -> outcome mcmc * W;
  needs_initial_phase : mcmc -> W -> outcome bool * W;
  set_initial_phase : mcmc -> bool -> W -> outcome unit * W;
  ask : mcmc -> W -> outcome pyobj * W;
  (* log_posterior(x) *)
  log_posterior : posterior -> pyobj -> W -> outcome Q * W;
  tell : mcmc -> scores -> W -> outcome vector * W;
  replace : mcmc -> vector -> Q -> W -> outcome unit * W
}.
Arguments method {W}.
Arguments mcmc {W}.
Arguments posterior {W}.
Arguments make_posterior {W}.
Arguments issubclass_multi {W}.
Arguments isinstance_multi {W}.
Arguments new_multi {W}.
Arguments new_single {W}.
Arguments needs_initial_phase {W}.
Arguments set_initial_phase {W}.
Arguments ask {W}.
Arguments log_posterior {W}.
Arguments tell {W}.
Arguments replace {W}.

End Sampler.

(* ===================================================================== *)
(** ** [pfunk/tests/geweke_mcmc.py]                                       *)
(* ===================================================================== *)

Module Geweke.

Record t := {
  _method : str;
  _nchains : Z;
  _pass_threshold : Q;
  _max_iter : Z;
  _initial_phase_iter : Z;
  name : str
}.

(** [Geweke(method, nchains, pass_threshold, max_iter)], with the arguments
    already converted by [str], [int] and [float]. The name goes to the
    constructor of [FunctionalTest]. *)
Definition init (method : str) (nchains : Z) (pass_threshold : Q) (max_iter : Z)
  : t :=
  {| _method := method;
     _nchains := nchains;
     _pass_threshold := pass_threshold;
     _max_iter := max_iter;
     _initial_phase_iter := 200;
     name := lit "geweke_mcmc" ++ method ++ lit "_" ++ str_of_int nchains |}.

Section Run.

Context {W : Type} (pints : Library W).

(** [np.empty((rows, model.n_parameters() + 1))]: a negative dimension is
    a [ValueError]. *)
Definition np_empty (rows : Z) : M Result W unit :=
  (n <- call (n_parameters pints) ;;
   if (rows <? 0) || (n + 1 <? 0) then raise ValueError
   else call (allocate pints rows (n + 1)))%eff.

(** The loop [for i in range(1, max_iter)] of the successive-conditional
    simulator: each sample is drawn from the one before, and gives a row of
    [g_samples]. [todo] counts the iterations left, [i] is the index of the
    next one, [samples] and [g_samples] hold the rows filled so far (row 0
    of [g_samples] is never filled: the list starts at row 1). *)
Fixpoint successive (self : t) (m : method pints) (moments : matrix * matrix)
    (todo : nat) (i : Z) (prev : vector) (samples g_samples : matrix)
  : M Result W (matrix * matrix) :=
  match todo with
  | O => ret (samples, g_samples)
  | S todo' =>
      (x <- call (successive_conditional_simulator pints m (_nchains self) prev) ;;
       g <- call (running_statistic pints moments (samples ++ [x]) i) ;;
       successive self m moments todo' (i + 1) x
         (samples ++ [x]) (g_samples ++ [g]))%eff
  end.

Definition _run (self : t) (log_path : str) : M Result W unit :=
  (call (import_geweke pints) ;;
   (* Store method name *)
   setitem "method" (VStr (_method self)) ;;
   (* Get method class *)
   m <- call (getattr pints (_method self)) ;;
   (* Check number of chains *)
   call (check_chains pints m (_nchains self)) ;;
   (* Load a forward model, create some toy data, create a uniform prior *)
   call (toy_problem pints) ;;
   (* g_samples *)
   np_empty (_max_iter self) ;;
   (* the marginal-conditional simulator: sample from prior *)
   theta1_samples <- call (prior_sample pints (_max_iter self)) ;;
   (* theta1_mean, theta1_var *)
   np_empty (_max_iter self) ;;
   np_empty (_max_iter self) ;;
   moments <- call (marginal_moments pints theta1_samples (_max_iter self)) ;;
   (* the successive-conditional simulator: theta2_samples *)
   np_empty (_max_iter self) ;;
   (* theta2_samples[0, :] = log_prior.sample(n=1) *)
   first <- call (prior_sample pints 1) ;;
   (if _max_iter self =? 0 then raise IndexError else ret tt) ;;
   theta2_0 <- match first with
               | [row] => ret row
               | _ => raise ValueError
               end ;;
   (* theta2_mean, theta2_var *)
   np_empty (_max_iter self) ;;
   np_empty (_max_iter self) ;;
   sg <- successive self m moments (Z.to_nat (_max_iter self - 1)) 1
           theta2_0 [theta2_0] [] ;;
   let g_samples := sg.2 in
   (* DEBUG = True *)
   call (plot_trace pints g_samples) ;;
   (* Store result *)
   setitem "p-value" (VInt 0) ;;
   (* Store status *)
   setitem "status" (VStr (lit "done")))%eff.

End Run.

Section Simulator.

Context {W : Type} (api : Sampler.Api W).

(** [mcmc.tell([log_posterior(xi) for xi in x])] when [multi] holds,
    [mcmc.tell(log_posterior(x))] otherwise. *)
Definition tell_posterior (multi : bool) (mc : Sampler.mcmc api)
    (log_posterior : Sampler.posterior api) (x : Sampler.pyobj)
  : M unit W vector :=
  (if multi then
     xs <- eval (Sampler.elements x) ;;
     fxs <- for_each
              (fun xi => call (Sampler.log_posterior api log_posterior xi)) xs ;;
     call (Sampler.tell api mc (Sampler.Each fxs))
   else
     fx <- call (Sampler.log_posterior api log_posterior x) ;;
     call (Sampler.tell api mc (Sampler.One fx)))%eff.

(** [for i in range(self._initial_phase_iter)], with [todo] rounds left. *)
Fixpoint initial_phase (multi : bool) (mc : Sampler.mcmc api)
    (log_posterior : Sampler.posterior api) (todo : nat) : M unit W unit :=
  match todo with
  | O => ret tt
  | S todo' =>
      (x <- call (Sampler.ask api mc) ;;
       tell_posterior multi mc log_posterior x ;;
       initial_phase multi mc log_posterior todo')%eff
  end.

Definition _successive_conditional_simulator (self : t)
    (method : Sampler.method api) (parameters : vector) : M unit W vector :=
  ((* Create some toy data ... a posterior log-likelihood *)
   log_posterior <- call (Sampler.make_posterior api parameters) ;;
   (* Create a sampling routine *)
   multi <- eval (Sampler.issubclass_multi api method) ;;
   mcmc <- (if multi
            then call (Sampler.new_multi api method (_nchains self) parameters)
            else call (Sampler.new_single api method parameters)) ;;
   (* get past the initial phase *)
   needs <- call (Sampler.needs_initial_phase api mcmc) ;;
   (if needs then
      call (Sampler.set_initial_phase api mcmc true) ;;
      initial_phase multi mcmc log_posterior
        (Z.to_nat (_initial_phase_iter self)) ;;
      call (Sampler.set_initial_phase api mcmc false)
    else ret tt) ;;
   fp <- call (Sampler.log_posterior api log_posterior (Sampler.Point parameters)) ;;
   call (Sampler.replace api mcmc parameters fp) ;;
   x <- call (Sampler.ask api mcmc) ;;
   tell_posterior (Sampler.isinstance_multi api method) mcmc log_posterior x)%eff.

End Simulator.

Definition _analyse (self : t) (results : list Result) : outcome bool :=
  assert_not_deviated_from 0 (_pass_threshold self) results "kld".

Definition _plot (self : t) (results : list Result) : list figure :=
  [ (* Figure: KL per commit *)
    variable results "kld"
      (lit "Normal w. " ++ _method self)
      (lit "Kullback-Leibler divergence")
      (Some (3 * _pass_threshold self)%Q);
    (* Figure: KL over time *)
    convergence results "iters" "klds"
      (lit "Normal w. " ++ _method self)
      (lit "Iteration (sliding window)")
      (lit "Kullback-Leibler divergence")
      0 10;
    (* Figure: ESS per commit *)
    variable results "ess"
      (lit "Normal w. " ++ _method self)
      (lit "Effective sample size")
      None ].

End Geweke.

(* ===================================================================== *)
(** ** [pfunk/tests/mcmc_banana.py]                                       *)
(* ===================================================================== *)

Module MCMCBanana.

Record t := {
  _method : str;
  _nchains : Z;
  _pass_threshold : Q;
  _max_iter : Z;
  name : str
}.

Definition init (method : str) (nchains : Z) (pass_threshold : Q) (max_iter : Z)
  : t :=
  {| _method := method;
     _nchains := nchains;
     _pass_threshold := pass_threshold;
     _max_iter := max_iter;
     name := lit "mcmc_banana_" ++ method ++ lit "_" ++ str_of_int nchains |}.

Section Run.

Context {W : Type} (pints : Library W).

(** Lines 47 to 118: run the sampler and weave its chains. The burn-in
    of line 101 is computed on the way and kept for line 132. *)
Definition run_sampler (self : t) (log_path : str) : M Result W (matrix * Z) :=
  (call (import_names pints) ;;
   (* Store method name *)
   setitem "method" (VStr (_method self)) ;;
   (* Get method class *)
   m <- call (getattr pints (_method self)) ;;
   (* Check number of chains *)
   call (check_chains pints m (_nchains self)) ;;
   (* Create a log pdf, generate a prior *)
   call (banana_problem pints) ;;
   (* Generate random starting point(s) *)
   x0 <- call (prior_sample pints (_nchains self)) ;;
   (* Set up a sampling routine, log to file *)
   mcmc <- call (controller_new pints m (_nchains self) x0 log_path) ;;
   (* Set max iterations *)
   let n_iter := _max_iter self in
   n_burn <- eval (int_half n_iter) ;;
   (* Run *)
   chains <- call (controller_run pints mcmc n_iter) ;;
   (* Combine chains *)
   chain <- eval (weave pints chains) ;;
   ret (chain, n_burn))%eff.

(** The woven chain alone. *)
Definition sample_chain (self : t) (log_path : str) : M Result W matrix :=
  (cb <- run_sampler self log_path ;; ret cb.1)%eff.

(** Lines 120 to 143: the sliding window, the burn-in and the fields. *)
Definition store_metrics (self : t) (n_burn : Z) (chain : matrix)
  : M Result W unit :=
  ((* Calculate KLD for a sliding window *)
   let n_samples := Z.of_nat (length chain) in
   let n_window := 500 * _nchains self in
   let n_jump := 20 * _nchains self in
   iters <- eval (range 0 (n_samples - n_window + n_jump) n_jump) ;;
   setitem "iters" (VInts iters) ;;
   klds <- for_each
             (fun i => call (kl_divergence pints (slice chain i (i + n_window))))
             iters ;;
   setitem "klds" (VFloats klds) ;;
   (* Remove burn-in *)
   let chain := slice_from chain (n_burn * _nchains self) in
   (* Store kullback-leibler divergence after burn-in *)
   kld <- call (kl_divergence pints chain) ;;
   setitem "kld" (VFloat kld) ;;
   (* Store effective sample size *)
   ess <- call (effective_sample_size pints chain) ;;
   setitem "ess" (VFloats ess) ;;
   (* Store status *)
   setitem "status" (VStr (lit "done")))%eff.

Definition _run (self : t) (log_path : str) : M Result W unit :=
  (cb <- run_sampler self log_path ;;
   store_metrics self cb.2 cb.1)%eff.

End Run.

Definition _analyse (self : t) (results : list Result) : outcome bool :=
  assert_not_deviated_from 0 (_pass_threshold self) results "kld".

Definition _plot (self : t) (results : list Result) : list figure :=
  [ (* Figure: KL per commit *)
    variable results "kld"
      (lit "Banana w. " ++ _method self)
      (lit "Kullback-Leibler divergence")
      (Some (3 * _pass_threshold self)%Q);
    (* Figure: KL over time *)
    convergence results "iters" "klds"
      (lit "Banana w. " ++ _method self)
      (lit "Iteration (sliding window)")
      (lit "Kullback-Leibler divergence")
      0 10;
    (* Figure: ESS per commit *)
    variable results "ess"
      (lit "Banana w. " ++ _method self)
      (lit "Effective sample size")
      None ].

End MCMCBanana.

(* ===================================================================== *)
(** ** Vocabulary of the statements                                       *)
(* ===================================================================== *)

Module Spec.

Definition is_digit (c : codepoint) : bool := ((48 <=? c) && (c <=? 57))%N.

(** A field of exactly two decimal digits. *)
Definition two_digit_field (s : str) : Prop :=
  exists a b, s = [a; b] /\ is_digit a = true /\ is_digit b = true.

(** A year written on exactly four decimal digits. *)
Definition four_digit_field (s : str) : Prop :=
  exists a b c d, s = [a; b; c; d] /\ is_digit a = true /\ is_digit b = true
                  /\ is_digit c = true /\ is_digit d = true.

(** The form YYYY-MM-DD-HH:MM:SS: nineteen characters, digits but for the
    separators. *)
Definition is_date_shaped (s : str) : bool :=
  match s with
  | [y1; y2; y3; y4; s1; m1; m2; s2; d1; d2; s3; h1; h2; s4; n1; n2; s5; c1; c2] =>
      forallb is_digit [y1; y2; y3; y4; m1; m2; d1; d2; h1; h2; n1; n2; c1; c2]
      && forallb (N.eqb (chr "-")) [s1; s2; s3]
      && forallb (N.eqb (chr ":")) [s4; s5]
  | _ => false
  end.

(** A letter followed by word characters, and possibly the one newline that
    [$] tolerates at the end of the subject. *)
Definition name_shaped (unicode_alnum : codepoint -> bool) (s : str) : Prop :=
  exists c body tail,
    s = c :: body ++ tail
    /\ Re.in_charset unicode_alnum (Re.Ranges [(chr "a", chr "z"); (chr "A", chr "Z")]) c = true
    /\ Forall (fun x => Re.word_char unicode_alnum x = true) body
    /\ (tail = [] \/ tail = [10%N]).

(** The time [date] formats: its argument, or the reading of the clock. *)
Definition time_given (localtime : struct_time) (when : option struct_time)
  : struct_time :=
  default localtime when.

(** The fourth of July 2018, five past one in the afternoon. *)
Definition a_wednesday : struct_time :=
  {| tm_year := 2018; tm_mon := 7; tm_mday := 4;
     tm_hour := 13; tm_min := 5; tm_sec := 9;
     tm_wday := 2; tm_yday := 185; tm_isdst := 1 |}.

(** A computation that never writes the field [key], whichever way it
    ends. *)
Definition untouched {W A} (key : string) (c : M Result W A) : Prop :=
  forall r w, (c r w).1.2 !! key = r !! key.

(** [n] calls of [c] in a row. *)
Fixpoint times {S W} (n : nat) (c : M S W unit) : M S W unit :=
  match n with
  | O => ret tt
  | S n' => bind c (fun _ => times n' c)
  end.

(** A computation that leaves its state alone, whichever way it ends. *)
Definition silent {S W A} (c : M S W A) : Prop :=
  forall s w, (c s w).1.2 = s.

(** A computation that, when it raises, has left its state alone. *)
Definition raises_clean {S W A} (c : M S W A) : Prop :=
  forall s w e s' w', c s w = (Raise e, s', w') -> s' = s.

(** A computation that, when it raises, has not written the field [key]. *)
Definition unwritten_on_raise {W A} (key : string) (c : M Result W A) : Prop :=
  forall r w e r' w', c r w = (Raise e, r', w') -> r' !! key = r !! key.

(** An entry of the library that returns, in whatever world it is
    called. *)
Definition returns {W A} (f : W -> outcome A * W) : Prop :=
  forall w, exists a w', f w = (Ok a, w').

(** The library lets a Geweke test reach its first allocation: the imports,
    the lookup of the method, the check of the chains, the toy problem and
    [model.n_parameters()] return. *)
Definition setup_returns {W} (pints : Library W) (self : Geweke.t) : Prop :=
  returns (import_geweke pints)
  /\ returns (getattr pints (Geweke._method self))
  /\ (forall m, returns (check_chains pints m (Geweke._nchains self)))
  /\ returns (toy_problem pints)
  /\ returns (n_parameters pints).

(** The library lets a Geweke test reach its second loop: the model has no
    negative number of columns to allocate, and the allocations of
    [max_iter] rows, the two samples of the prior and the moments of the
    first sample return. *)
Definition sampling_returns {W} (pints : Library W) (self : Geweke.t) : Prop :=
  (forall w n w', n_parameters pints w = (Ok n, w') -> 0 <= n + 1)
  /\ (forall cols, returns (allocate pints (Geweke._max_iter self) cols))
  /\ returns (prior_sample pints (Geweke._max_iter self))
  /\ returns (prior_sample pints 1)
  /\ (forall theta1,
         returns (marginal_moments pints theta1 (Geweke._max_iter self))).

(** The calls made on a sampler. *)
Inductive sampler_call :=
| New
| NeedsInitialPhase
| SetInitialPhase (on : bool)
| Ask
| Tell
| Replace.

(** An oracle that also notes its call, or notes nothing. *)
Definition noting {W A} (c : option sampler_call) (f : W -> outcome A * W)
  : W * list sampler_call -> outcome A * (W * list sampler_call) :=
  fun wt =>
    let (o, w') := f wt.1 in
    (o, (w', match c with Some x => wt.2 ++ [x] | None => wt.2 end)).

(** A sampler whose world also lists the calls made on the sampler. *)
Definition listing {W} (api : Sampler.Api W) : Sampler.Api (W * list sampler_call) :=
  {| Sampler.method := Sampler.method api;
     Sampler.mcmc := Sampler.mcmc api;
     Sampler.posterior := Sampler.posterior api;
     Sampler.make_posterior := fun p => noting None (Sampler.make_posterior api p);
     Sampler.issubclass_multi := Sampler.issubclass_multi api;
     Sampler.isinstance_multi := Sampler.isinstance_multi api;
     Sampler.new_multi := fun m n p => noting (Some New) (Sampler.new_multi api m n p);
     Sampler.new_single := fun m p => noting (Some New) (Sampler.new_single api m p);
     Sampler.needs_initial_phase :=
       fun mc => noting (Some NeedsInitialPhase) (Sampler.needs_initial_phase api mc);
     Sampler.set_initial_phase :=
       fun mc b => noting (Some (SetInitialPhase b)) (Sampler.set_initial_phase api mc b);
     Sampler.ask := fun mc => noting (Some Ask) (Sampler.ask api mc);
     Sampler.log_posterior := fun lp x => noting None (Sampler.log_posterior api lp x);
     Sampler.tell := fun mc fx => noting (Some Tell) (Sampler.tell api mc fx);
     Sampler.replace := fun mc p fp => noting (Some Replace) (Sampler.replace api mc p fp) |}.

(** [n] rounds of ask and tell. *)
Definition rounds (n : nat) : list sampler_call :=
  concat (replicate n [Ask; Tell]).

(** The calls of one step of the successive-conditional simulator. *)
Definition simulator_calls (needs : bool) (n : nat) : list sampler_call :=
  [New; NeedsInitialPhase]
  ++ (if needs
      then [SetInitialPhase true] ++ rounds n ++ [SetInitialPhase false]
      else [])
  ++ [Replace; Ask; Tell].

(** The fields of the results that a figure draws. *)
Definition fields_read (f : figure) : list string :=
  match f with
  | variable _ field _ _ _ => [field]
  | convergence _ xfield yfield _ _ _ _ _ => [xfield; yfield]
  end.

(** What a formatted date shows of a time: a month or a day of zero is
    printed as one. *)
Definition date_fields (t : struct_time) : list Z :=
  [tm_year t; Z.max 1 (tm_mon t); Z.max 1 (tm_mday t);
   tm_hour t; tm_min t; tm_sec t].

(** The characters that separate the components of a path. *)
Definition path_separator (c : codepoint) : bool :=
  ((c =? chr "/") || (c =? chr "\") || (c =? chr ".") || (c =? chr " ")
   || (c =? 0))%N.

End Spec.
Import Spec.

(* ===================================================================== *)
(** ** A small world to run the harness in                                *)
(* ===================================================================== *)

Module Demo.

(** A library whose samplers stand still: every chain stays at the origin
    and every window is at divergence 1/20. *)
Definition pints : Library unit :=
  {| method := str;
     controller := Z * matrix;
     import_geweke := fun w => (Ok tt, w);
     getattr := fun name w => (Ok name, w);
     check_chains := fun _ _ w => (Ok tt, w);
     toy_problem := fun w => (Ok tt, w);
     n_parameters := fun w => (Ok 2, w);
     allocate := fun _ _ w => (Ok tt, w);
     prior_sample := fun n w => (Ok (replicate (Z.to_nat n) [0%Q; 0%Q]), w);
     marginal_moments := fun theta1 _ w => (Ok (theta1, theta1), w);
     successive_conditional_simulator := fun _ _ prev w => (Ok prev, w);
     running_statistic := fun _ _ _ w => (Ok [0%Q; 0%Q], w);
     plot_trace := fun _ w => (Ok tt, w);
     import_names := fun w => (Ok tt, w);
     banana_problem := fun w => (Ok tt, w);
     controller_new := fun _ nchains x0 _ w => (Ok (nchains, x0), w);
     controller_run :=
       fun mcmc n_iter w =>
         (Ok (replicate (Z.to_nat mcmc.1)
                (replicate (Z.to_nat n_iter) [0%Q; 0%Q])), w);
     weave := fun chains => Ok (concat chains);
     kl_divergence := fun _ w => (Ok (1 # 20)%Q, w);
     effective_sample_size := fun _ w => (Ok [100%Q; 100%Q], w) |}.

Definition geweke : Geweke.t :=
  Geweke.init (lit "AdaptiveCovarianceMCMC") 1 (1 # 10) 3.

Definition banana : MCMCBanana.t :=
  MCMCBanana.init (lit "AdaptiveCovarianceMCMC") 1 (1 # 10) 600.

Definition log_path : str := lit "logs/demo.txt".

(** A checkout whose world is the list of the calls made so far. *)
Definition checkout : Checkout (list string) :=
  {| pints_refresh := fun w => (Ok tt, w ++ ["refresh"%string]);
     pints_hash := fun w => (Ok (lit "abc123"), w ++ ["hash"%string]);
     import_pints := fun _ w => (Ok (lit "/pfunk/pints/pints"), w ++ ["import"%string]);
     pints_version := fun w => (Ok (lit "Pints 0.1.0"), w ++ ["version"%string]) |}.

Definition DIR_PINTS_REPO : str := lit "/pfunk/pints".
Definition DIR_PINTS_MODULE : str := lit "/pfunk/pints/pints".

(** The globals as the module body leaves them (line 74). *)
Definition fresh : globals :=
  {| PINTS_COMMIT := None; PINTS_VERSION := None; sys_path := [] |}.

(** A result as it may be stored: a status and one metric. *)
Definition stored (kld : Q) : Result :=
  <["kld" := VFloat kld]> (<["status" := VStr (lit "done")]> ∅).

Definition stored_without_kld : Result :=
  <["p-value" := VInt 0]> (<["status" := VStr (lit "done")]> ∅).

(** The same library with a sampler and a divergence that fail. *)
Definition broken : Library unit :=
  {| method := str;
     controller := Z * matrix;
     import_geweke := fun w => (Ok tt, w);
     getattr := fun name w => (Ok name, w);
     check_chains := fun _ _ w => (Ok tt, w);
     toy_problem := fun w => (Ok tt, w);
     n_parameters := fun w => (Ok 2, w);
     allocate := fun _ _ w => (Ok tt, w);
     prior_sample := fun n w => (Ok (replicate (Z.to_nat n) [0%Q; 0%Q]), w);
     marginal_moments := fun theta1 _ w => (Ok (theta1, theta1), w);
     successive_conditional_simulator := fun _ _ _ w => (Raise LibraryError, w);
     running_statistic := fun _ _ _ w => (Ok [0%Q; 0%Q], w);
     plot_trace := fun _ w => (Ok tt, w);
     import_names := fun w => (Ok tt, w);
     banana_problem := fun w => (Ok tt, w);
     controller_new := fun _ nchains x0 _ w => (Ok (nchains, x0), w);
     controller_run :=
       fun mcmc n_iter w =>
         (Ok (replicate (Z.to_nat mcmc.1)
                (replicate (Z.to_nat n_iter) [0%Q; 0%Q])), w);
     weave := fun chains => Ok (concat chains);
     kl_divergence := fun _ w => (Raise LibraryError, w);
     effective_sample_size := fun _ w => (Ok [100%Q; 100%Q], w) |}.

(** A library that is not installed: the imports fail. *)
Definition missing : Library unit :=
  {| method := str;
     controller := Z * matrix;
     import_geweke := fun w => (Raise ImportError, w);
     getattr := fun name w => (Ok name, w);
     check_chains := fun _ _ w => (Ok tt, w);
     toy_problem := fun w => (Ok tt, w);
     n_parameters := fun w => (Ok 2, w);
     allocate := fun _ _ w => (Ok tt, w);
     prior_sample := fun n w => (Ok (replicate (Z.to_nat n) [0%Q; 0%Q]), w);
     marginal_moments := fun theta1 _ w => (Ok (theta1, theta1), w);
     successive_conditional_simulator := fun _ _ prev w => (Ok prev, w);
     running_statistic := fun _ _ _ w => (Ok [0%Q; 0%Q], w);
     plot_trace := fun _ w => (Ok tt, w);
     import_names := fun w => (Raise ImportError, w);
     banana_problem := fun w => (Ok tt, w);
     controller_new := fun _ nchains x0 _ w => (Ok (nchains, x0), w);
     controller_run :=
       fun mcmc n_iter w =>
         (Ok (replicate (Z.to_nat mcmc.1)
                (replicate (Z.to_nat n_iter) [0%Q; 0%Q])), w);
     weave := fun chains => Ok (concat chains);
     kl_divergence := fun _ w => (Ok (1 # 20)%Q, w);
     effective_sample_size := fun _ w => (Ok [100%Q; 100%Q], w) |}.

(** A single-chain sampler that needs an initial phase and stands
    still. *)
Definition sampler : Sampler.Api unit :=
  {| Sampler.method := str;
     Sampler.mcmc := vector;
     Sampler.posterior := unit;
     Sampler.make_posterior := fun _ w => (Ok tt, w);
     Sampler.issubclass_multi := fun _ => Ok false;
     Sampler.isinstance_multi := fun _ => false;
     Sampler.new_multi := fun _ _ p w => (Ok p, w);
     Sampler.new_single := fun _ p w => (Ok p, w);
     Sampler.needs_initial_phase := fun _ w => (Ok true, w);
     Sampler.set_initial_phase := fun _ _ w => (Ok tt, w);
     Sampler.ask := fun mc w => (Ok (Sampler.Point mc), w);
     Sampler.log_posterior := fun _ _ w => (Ok 0%Q, w);
     Sampler.tell := fun mc _ w => (Ok mc, w);
     Sampler.replace := fun _ _ _ w => (Ok tt, w) |}.

(** A banana test whose chain is shorter than one window. *)
Definition short_banana : MCMCBanana.t :=
  MCMCBanana.init (lit "AdaptiveCovarianceMCMC") 1 (1 # 10) 100.

(** A banana test without chains. *)
Definition no_chains : MCMCBanana.t :=
  MCMCBanana.init (lit "AdaptiveCovarianceMCMC") 0 (1 # 10) 600.

(** A Geweke test without iterations. *)
Definition idle_geweke : Geweke.t :=
  Geweke.init (lit "AdaptiveCovarianceMCMC") 1 (1 # 10) 0.

(** A checkout that cannot reach its remote. *)
Definition unreachable : Checkout (list string) :=
  {| pints_refresh := fun w => (Raise SyncError, w ++ ["refresh"%string]);
     pints_hash := fun w => (Ok (lit "abc123"), w ++ ["hash"%string]);
     import_pints := fun _ w => (Ok (lit "/pfunk/pints/pints"), w ++ ["import"%string]);
     pints_version := fun w => (Ok (lit "Pints 0.1.0"), w ++ ["version"%string]) |}.

(** A checkout shadowed by another installation of pints. *)
Definition shadowed : Checkout (list string) :=
  {| pints_refresh := fun w => (Ok tt, w ++ ["refresh"%string]);
     pints_hash := fun w => (Ok (lit "abc123"), w ++ ["hash"%string]);
     import_pints := fun _ w => (Ok (lit "/usr/lib/python3/pints"), w ++ ["import"%string]);
     pints_version := fun w => (Ok (lit "Pints 0.1.0"), w ++ ["version"%string]) |}.

End Demo.

(* ===================================================================== *)
(** ** Names                                                              *)
(* ===================================================================== *)

Section Strings.

Lemma chr_inj a b : chr a = chr b -> a = b.
Proof.
  unfold chr; intros H.
  rewrite <- (ascii_N_embedding a), <- (ascii_N_embedding b).
  now rewrite H.
Qed.

Lemma lit_inj s1 s2 : lit s1 = lit s2 -> s1 = s2.
Proof.
  revert s2; induction s1 as [|a s1 IH]; intros [|b s2]; simpl;
    intros H; try discriminate; [reflexivity|].
  injection H as Hc Hs. f_equal; [now apply chr_inj | now apply IH].
Qed.

Lemma lit_app s1 s2 : lit (s1 +:+ s2) = lit s1 ++ lit s2.
Proof. induction s1 as [|a s1 IH]; simpl; [reflexivity | now rewrite <- IH]. Qed.

Lemma str_of_int_inj n1 n2 : str_of_int n1 = str_of_int n2 -> n1 = n2.
Proof. unfold str_of_int; intros H. apply lit_inj in H. now apply (inj pretty). Qed.

Lemma pretty_N_char_digit x : is_digit (chr (pretty_N_char x)) = true.
Proof. unfold pretty_N_char. repeat case_match; reflexivity. Qed.

Lemma pretty_N_go_digits x s :
  Forall (fun c => is_digit c = true) (lit s) ->
  Forall (fun c => is_digit c = true) (lit (pretty_N_go x s)).
Proof.
  revert s. induction (N.lt_wf_0 x) as [x _ IH]; intros s Hs.
  destruct (decide (x = 0%N)) as [->|Hx].
  - now rewrite pretty_N_go_0.
  - rewrite pretty_N_go_step by lia. apply IH.
    + apply N.div_lt; lia.
    + simpl. constructor; [apply pretty_N_char_digit | exact Hs].
Qed.

Lemma pretty_N_digits (x : N) : Forall (fun c => is_digit c = true) (lit (pretty x)).
Proof.
  unfold pretty, pretty_N. case_decide.
  - simpl. repeat constructor.
  - apply pretty_N_go_digits. constructor.
Qed.

(** The decimal form of an integer holds digits and at most a sign. *)
Lemma str_of_int_chars n :
  Forall (fun c => is_digit c = true \/ c = chr "-") (str_of_int n).
Proof.
  unfold str_of_int, pretty, pretty_Z. destruct n as [|p|p].
  - simpl. repeat constructor.
  - eapply Forall_impl; [apply (pretty_N_digits (N.pos p))|]. simpl; auto.
  - rewrite lit_app. apply Forall_app_2.
    + simpl. constructor; [now right | constructor].
    + eapply Forall_impl; [apply (pretty_N_digits (N.pos p))|]. simpl; auto.
Qed.

Lemma str_of_int_no_underscore n : chr "_" ∉ str_of_int n.
Proof.
  intros Hin. pose proof (str_of_int_chars n) as H.
  rewrite Forall_forall in H. apply H in Hin as [Hd|He]; vm_compute in *; congruence.
Qed.

(** A string is cut in one way only at its last separator. *)
Lemma cut_at_last (sep : codepoint) (m1 d1 m2 d2 : str) :
  sep ∉ d1 -> sep ∉ d2 ->
  m1 ++ sep :: d1 = m2 ++ sep :: d2 -> m1 = m2 /\ d1 = d2.
Proof.
  intros H1 H2. revert m2.
  induction m1 as [|a m1 IH]; intros [|b m2] H; simpl in H.
  - injection H as ->. now split.
  - injection H as Hb Hd. exfalso. apply H1. rewrite Hd.
    apply elem_of_app; right; apply elem_of_cons; now left.
  - injection H as Ha Hd. exfalso. apply H2. rewrite <- Hd.
    apply elem_of_app; right; apply elem_of_cons; now left.
  - injection H as -> H. destruct (IH m2 H) as [Hm Hd]. split; congruence.
Qed.

Lemma name_inj (prefix m1 m2 : str) (n1 n2 : Z) :
  prefix ++ m1 ++ lit "_" ++ str_of_int n1 = prefix ++ m2 ++ lit "_" ++ str_of_int n2 ->
  m1 = m2 /\ n1 = n2.
Proof.
  intros H. apply app_inv_head in H. simpl in H.
  apply cut_at_last in H as [-> Hn]; try apply str_of_int_no_underscore.
  split; [reflexivity | now apply str_of_int_inj].
Qed.

End Strings.

(** C5. Two tests of one class that compute the same name were built with
    the same method and the same number of chains: the name
    ['geweke_mcmc' + method + '_' + str(nchains)] (and likewise
    ['mcmc_banana_' + method + '_' + str(nchains)]) determines both. *)
Theorem same_name_same_experiment :
  (forall m1 n1 p1 i1 m2 n2 p2 i2,
      Geweke.name (Geweke.init m1 n1 p1 i1) = Geweke.name (Geweke.init m2 n2 p2 i2) ->
      Geweke._method (Geweke.init m1 n1 p1 i1) = Geweke._method (Geweke.init m2 n2 p2 i2)
      /\ Geweke._nchains (Geweke.init m1 n1 p1 i1) = Geweke._nchains (Geweke.init m2 n2 p2 i2))
  /\
  (forall m1 n1 p1 i1 m2 n2 p2 i2,
      MCMCBanana.name (MCMCBanana.init m1 n1 p1 i1) = MCMCBanana.name (MCMCBanana.init m2 n2 p2 i2) ->
      MCMCBanana._method (MCMCBanana.init m1 n1 p1 i1) = MCMCBanana._method (MCMCBanana.init m2 n2 p2 i2)
      /\ MCMCBanana._nchains (MCMCBanana.init m1 n1 p1 i1) = MCMCBanana._nchains (MCMCBanana.init m2 n2 p2 i2)).
Proof.
  split; intros m1 n1 p1 i1 m2 n2 p2 i2 H.
  - exact (name_inj (lit "geweke_mcmc") m1 m2 n1 n2 H).
  - exact (name_inj (lit "mcmc_banana_") m1 m2 n1 n2 H).
Qed.

(** A witness of [same_name_same_experiment]: two Geweke tests built with
    different thresholds and iteration counts but one name. *)
Lemma same_name_same_experiment_witness :
  Geweke._method (Geweke.init (lit "HaarioBardenetACMC") 3 (1 # 10) 200)
  = Geweke._method (Geweke.init (lit "HaarioBardenetACMC") 3 (1 # 2) 50)
  /\ Geweke._nchains (Geweke.init (lit "HaarioBardenetACMC") 3 (1 # 10) 200)
     = Geweke._nchains (Geweke.init (lit "HaarioBardenetACMC") 3 (1 # 2) 50).
Proof.
  apply (proj1 same_name_same_experiment). reflexivity.
Defined.

Section NameFormat.

Variable unicode_alnum : codepoint -> bool.

Abbreviation word := (Re.word_char unicode_alnum).
Abbreviation rest_of_name := (Re.match_here unicode_alnum [Re.Many Re.Word; Re.Eol]).

Lemma rest_of_name_nil bos : rest_of_name bos [] = true.
Proof. reflexivity. Qed.

Lemma rest_of_name_cons bos c s :
  rest_of_name bos (c :: s)
  = (word c && rest_of_name false s) || (Re.at_eol (c :: s) && true).
Proof. reflexivity. Qed.

Lemma at_eol_cons c s : Re.at_eol (c :: s) = true <-> c = 10%N /\ s = [].
Proof.
  destruct s as [|d s]; simpl.
  - rewrite N.eqb_eq. tauto.
  - split; [discriminate | intros [_ ?]; discriminate].
Qed.

(** [\w*$] matches word characters up to the end of the subject, or up to a
    newline that ends it. *)
Lemma rest_of_name_spec bos s :
  rest_of_name bos s = true <->
  exists body tail, s = body ++ tail
                    /\ Forall (fun x => word x = true) body
                    /\ (tail = [] \/ tail = [10%N]).
Proof.
  revert bos; induction s as [|c s IH]; intros bos.
  - rewrite rest_of_name_nil. split; [intros _ | reflexivity].
    exists [], []. repeat split; auto.
  - rewrite rest_of_name_cons, orb_true_iff, !andb_true_iff, at_eol_cons, IH.
    split.
    + intros [[Hc (body & tail & -> & Hb & Ht)] | [[-> ->] _]].
      * exists (c :: body), tail. repeat split; auto.
      * exists [], [10%N]. repeat split; auto.
    + intros (body & tail & Hs & Hb & Ht). destruct body as [|b body].
      * right. simpl in Hs. destruct Ht as [-> | ->]; [discriminate|].
        injection Hs as -> ->. auto.
      * left. injection Hs as -> ->. inversion Hb; subst. split; [assumption|].
        exists body, tail. auto.
Qed.

(** What [NAME_FORMAT.match] accepts. *)
Lemma NAME_FORMAT_match_shape (name : str) :
  Re.re_match unicode_alnum NAME_FORMAT name = true <-> name_shaped unicode_alnum name.
Proof.
  unfold name_shaped, Re.re_match, NAME_FORMAT.
  destruct name as [|c s].
  - split; [discriminate | intros (? & ? & ? & ? & _); discriminate].
  - change (Re.match_here unicode_alnum
              [Re.Bol; Re.One (Re.Ranges [(chr "a", chr "z"); (chr "A", chr "Z")]);
               Re.Many Re.Word; Re.Eol] true (c :: s))
      with (true && (Re.in_charset unicode_alnum
                       (Re.Ranges [(chr "a", chr "z"); (chr "A", chr "Z")]) c
                     && rest_of_name false s)).
    rewrite andb_true_l, andb_true_iff, rest_of_name_spec. split.
    + intros [Hc (body & tail & -> & Hb & Ht)]. exists c, body, tail. auto.
    + intros (c' & body & tail & Hs & Hc & Hb & Ht). injection Hs as -> ->.
      split; [assumption|]. exists body, tail. auto.
Qed.

End NameFormat.

(** C4. [validate_name] returns the name it is given exactly when the name
    matches [NAME_FORMAT], the pattern [^[a-zA-Z]\w*$], and fails with
    [InvalidNameError] otherwise; it accepts ["geweke_mcmc1"] and rejects
    ["1geweke"] and ["geweke-mcmc"]. *)
Theorem validate_name_accepts_matches (unicode_alnum : codepoint -> bool) :
  (forall name : str,
      (validate_name unicode_alnum name = Ok name
       <-> Re.re_match unicode_alnum NAME_FORMAT name = true)
      /\ (validate_name unicode_alnum name = Raise InvalidNameError
          <-> Re.re_match unicode_alnum NAME_FORMAT name = false))
  /\ validate_name unicode_alnum (lit "geweke_mcmc1") = Ok (lit "geweke_mcmc1")
  /\ validate_name unicode_alnum (lit "1geweke") = Raise InvalidNameError
  /\ validate_name unicode_alnum (lit "geweke-mcmc") = Raise InvalidNameError.
Proof.
  split; [|repeat split; vm_compute; reflexivity].
  intros name. unfold validate_name.
  destruct (Re.re_match unicode_alnum NAME_FORMAT name); split; split;
    intros H; congruence.
Qed.

(* ===================================================================== *)
(** ** Dates                                                              *)
(* ===================================================================== *)

Section Dates.

Ltac div_lia := zify; Z.to_euclidean_division_equations; lia.

Lemma pretty_one_digit (x : N) :
  (x < 10)%N -> lit (pretty x) = [chr (pretty_N_char x)].
Proof.
  intros Hx. unfold pretty, pretty_N. case_decide as H0; [subst; reflexivity|].
  rewrite pretty_N_go_step by lia.
  replace (N.div x 10) with 0%N by div_lia.
  replace (N.modulo x 10) with x by div_lia.
  reflexivity.
Qed.

Lemma pretty_two_digits (x : N) :
  (10 <= x < 100)%N ->
  lit (pretty x) = [chr (pretty_N_char (N.div x 10));
                    chr (pretty_N_char (N.modulo x 10))].
Proof.
  intros Hx. unfold pretty, pretty_N. case_decide as H0; [lia|].
  rewrite !pretty_N_go_step by div_lia.
  replace (N.div (N.div x 10) 10) with 0%N by div_lia.
  replace (N.modulo (N.div x 10) 10) with (N.div x 10) by div_lia.
  reflexivity.
Qed.

Lemma pretty_four_digits (x : N) :
  (1000 <= x < 10000)%N ->
  exists a b c d,
    lit (pretty x) = [chr (pretty_N_char a); chr (pretty_N_char b);
                      chr (pretty_N_char c); chr (pretty_N_char d)].
Proof.
  intros Hx. unfold pretty, pretty_N. case_decide as H0; [lia|].
  rewrite !pretty_N_go_step by div_lia.
  replace (N.div (N.div (N.div (N.div x 10) 10) 10) 10) with 0%N by div_lia.
  do 4 eexists. reflexivity.
Qed.

Lemma str_of_int_nonneg n : 0 <= n -> str_of_int n = lit (pretty (Z.to_N n)).
Proof. intros H. destruct n; try lia; reflexivity. Qed.

Lemma two_digits_field n : 0 <= n <= 99 -> two_digit_field (two_digits n).
Proof.
  intros Hn. unfold two_digits, two_digit_field.
  rewrite str_of_int_nonneg by lia. destruct (Z.ltb_spec n 10).
  - rewrite pretty_one_digit by lia. do 2 eexists.
    split; [reflexivity|]. split; [reflexivity | apply pretty_N_char_digit].
  - rewrite pretty_two_digits by lia. do 2 eexists.
    split; [reflexivity|]. split; apply pretty_N_char_digit.
Qed.

Lemma year_field n : 1000 <= n <= 9999 -> four_digit_field (str_of_int n).
Proof.
  intros Hn. unfold four_digit_field. rewrite str_of_int_nonneg by lia.
  destruct (pretty_four_digits (Z.to_N n)) as (a & b & c & d & ->); [lia|].
  exists (chr (pretty_N_char a)), (chr (pretty_N_char b)),
         (chr (pretty_N_char c)), (chr (pretty_N_char d)).
  split; [reflexivity|]. repeat split; apply pretty_N_char_digit.
Qed.

(** The conversions of [DATE_FORMAT], one after the other. *)
Lemma expand_DATE_FORMAT t :
  expand DATE_FORMAT t
  = Ok (str_of_int (tm_year t) ++ lit "-"
        ++ two_digits (Z.max 1 (tm_mon t)) ++ lit "-"
        ++ two_digits (Z.max 1 (tm_mday t)) ++ lit "-"
        ++ two_digits (tm_hour t) ++ lit ":"
        ++ two_digits (tm_min t) ++ lit ":"
        ++ two_digits (tm_sec t)).
Proof.
  lazy -[str_of_int two_digits app Z.max
         tm_year tm_mon tm_mday tm_hour tm_min tm_sec].
  rewrite app_nil_r. reflexivity.
Qed.

Lemma tm_accepted_bounds t :
  tm_accepted t = true ->
  0 <= tm_mon t <= 12 /\ 0 <= tm_mday t <= 31 /\ 0 <= tm_hour t <= 23
  /\ 0 <= tm_min t <= 59 /\ 0 <= tm_sec t <= 61.
Proof.
  unfold tm_accepted, tm_in_range. rewrite !andb_true_iff, !Z.leb_le. lia.
Qed.

Lemma strftime_accepted fmt t :
  tm_accepted t = true -> time_strftime fmt t = expand fmt t.
Proof.
  unfold tm_accepted, time_strftime. rewrite andb_true_iff.
  now intros [-> ->].
Qed.

Lemma date_shape (y mo d h mi s : str) :
  four_digit_field y -> two_digit_field mo -> two_digit_field d ->
  two_digit_field h -> two_digit_field mi -> two_digit_field s ->
  is_date_shaped (y ++ lit "-" ++ mo ++ lit "-" ++ d ++ lit "-"
                  ++ h ++ lit ":" ++ mi ++ lit ":" ++ s) = true.
Proof.
  intros (y1 & y2 & y3 & y4 & -> & Hy1 & Hy2 & Hy3 & Hy4)
         (m1 & m2 & -> & Hm1 & Hm2) (d1 & d2 & -> & Hd1 & Hd2)
         (h1 & h2 & -> & Hh1 & Hh2) (n1 & n2 & -> & Hn1 & Hn2)
         (c1 & c2 & -> & Hc1 & Hc2).
  cbn [app lit is_date_shaped forallb].
  rewrite Hy1, Hy2, Hy3, Hy4, Hm1, Hm2, Hd1, Hd2, Hh1, Hh2, Hn1, Hn2, Hc1, Hc2.
  reflexivity.
Qed.

End Dates.

(** C8. For a time whose fields [time.strftime] accepts, given as [when] or
    read from the clock when [when] is omitted, [date] returns
    [time.strftime('%Y-%m-%d-%H:%M:%S', ...)]: the year in decimal, then
    month, day, hour, minute and second on two digits each, separated by
    ['-'], ['-'], ['-'], [':'] and [':']. For a year from 1000 to 9999 the
    year takes four digits and the string has the form
    YYYY-MM-DD-HH:MM:SS. *)
Theorem date_is_formatted (localtime : struct_time) (when : option struct_time) :
  tm_accepted (time_given localtime when) = true ->
  date localtime when = time_strftime DATE_FORMAT (time_given localtime when)
  /\ DATE_FORMAT = lit "%Y-%m-%d-%H:%M:%S"
  /\ date localtime when
     = Ok (str_of_int (tm_year (time_given localtime when)) ++ lit "-"
           ++ two_digits (Z.max 1 (tm_mon (time_given localtime when))) ++ lit "-"
           ++ two_digits (Z.max 1 (tm_mday (time_given localtime when))) ++ lit "-"
           ++ two_digits (tm_hour (time_given localtime when)) ++ lit ":"
           ++ two_digits (tm_min (time_given localtime when)) ++ lit ":"
           ++ two_digits (tm_sec (time_given localtime when)))
  /\ two_digit_field (two_digits (Z.max 1 (tm_mon (time_given localtime when))))
  /\ two_digit_field (two_digits (Z.max 1 (tm_mday (time_given localtime when))))
  /\ two_digit_field (two_digits (tm_hour (time_given localtime when)))
  /\ two_digit_field (two_digits (tm_min (time_given localtime when)))
  /\ two_digit_field (two_digits (tm_sec (time_given localtime when)))
  /\ (1000 <= tm_year (time_given localtime when) <= 9999 ->
      four_digit_field (str_of_int (tm_year (time_given localtime when)))
      /\ exists s, date localtime when = Ok s /\ is_date_shaped s = true).
Proof.
  intros Hr.
  assert (Hd : date localtime when
               = time_strftime DATE_FORMAT (time_given localtime when))
    by (destruct when; reflexivity).
  destruct (tm_accepted_bounds _ Hr) as (Hmo & Hda & Hh & Hmi & Hs).
  assert (Hx : date localtime when
     = Ok (str_of_int (tm_year (time_given localtime when)) ++ lit "-"
           ++ two_digits (Z.max 1 (tm_mon (time_given localtime when))) ++ lit "-"
           ++ two_digits (Z.max 1 (tm_mday (time_given localtime when))) ++ lit "-"
           ++ two_digits (tm_hour (time_given localtime when)) ++ lit ":"
           ++ two_digits (tm_min (time_given localtime when)) ++ lit ":"
           ++ two_digits (tm_sec (time_given localtime when)))).
  { rewrite Hd, strftime_accepted by exact Hr. apply expand_DATE_FORMAT. }
  split; [exact Hd|]. split; [reflexivity|]. split; [exact Hx|].
  do 5 (split; [apply two_digits_field; lia|]).
  intros Hy. split; [now apply year_field|].
  eexists. split; [exact Hx|].
  apply date_shape; try (apply two_digits_field; lia). now apply year_field.
Qed.

(** A witness of [date_is_formatted], on the reading of the clock. *)
Lemma date_is_formatted_witness :
  date a_wednesday None = Ok (lit "2018-07-04-13:05:09").
Proof.
  destruct (date_is_formatted a_wednesday None) as (_ & _ & H & _);
    [reflexivity | exact H].
Defined.

(** Not every time value gives the form YYYY-MM-DD-HH:MM:SS: the year 999
    is printed on three digits, the year 12345 on five, and a time with a
    month of 13, or with a year beyond a C [int], gives no string at
    all. *)
Lemma date_outside_the_form :
  date a_wednesday
       (Some {| tm_year := 999; tm_mon := 7; tm_mday := 4;
                tm_hour := 13; tm_min := 5; tm_sec := 9;
                tm_wday := 2; tm_yday := 185; tm_isdst := 0 |})
  = Ok (lit "999-07-04-13:05:09")
  /\ is_date_shaped (lit "999-07-04-13:05:09") = false
  /\ date a_wednesday
          (Some {| tm_year := 12345; tm_mon := 7; tm_mday := 4;
                   tm_hour := 13; tm_min := 5; tm_sec := 9;
                   tm_wday := 2; tm_yday := 185; tm_isdst := 0 |})
     = Ok (lit "12345-07-04-13:05:09")
  /\ is_date_shaped (lit "12345-07-04-13:05:09") = false
  /\ date a_wednesday
          (Some {| tm_year := 2018; tm_mon := 13; tm_mday := 4;
                   tm_hour := 13; tm_min := 5; tm_sec := 9;
                   tm_wday := 2; tm_yday := 185; tm_isdst := 0 |})
     = Raise ValueError
  /\ date a_wednesday
          (Some {| tm_year := 2 ^ 31; tm_mon := 7; tm_mday := 4;
                   tm_hour := 13; tm_min := 5; tm_sec := 9;
                   tm_wday := 2; tm_yday := 185; tm_isdst := 0 |})
     = Raise OverflowError.
Proof. vm_compute. repeat split. Qed.

Example date_of_when :
  date a_wednesday
       (Some {| tm_year := 1999; tm_mon := 12; tm_mday := 31;
                tm_hour := 23; tm_min := 59; tm_sec := 60;
                tm_wday := 4; tm_yday := 365; tm_isdst := 0 |})
  = Ok (lit "1999-12-31-23:59:60").
Proof. vm_compute. reflexivity. Qed.

(* ===================================================================== *)
(** ** Reasoning about runs                                               *)
(* ===================================================================== *)

Section Runs.

Context {S W : Type}.

Lemma bind_Ok {A B} (c : M S W A) (k : A -> M S W B) s w b s' w' :
  bind c k s w = (Ok b, s', w') ->
  exists a s1 w1, c s w = (Ok a, s1, w1) /\ k a s1 w1 = (Ok b, s', w').
Proof.
  unfold bind. destruct (c s w) as [[[a|e] s1] w1]; [eauto | discriminate].
Qed.

Lemma bind_run {A B} (c : M S W A) (k : A -> M S W B) s w a s1 w1 :
  c s w = (Ok a, s1, w1) -> bind c k s w = k a s1 w1.
Proof. unfold bind. now intros ->. Qed.

Lemma call_Ok {A} (f : W -> outcome A * W) s w a s' w' :
  call (S := S) f s w = (Ok a, s', w') -> s' = s /\ f w = (Ok a, w').
Proof.
  unfold call. destruct (f w) as [o w1]. intros H; injection H as -> -> ->. auto.
Qed.

Lemma eval_Ok {A} (o : outcome A) s w a s' w' :
  eval (S := S) (W := W) o s w = (Ok a, s', w') -> o = Ok a /\ s' = s /\ w' = w.
Proof. unfold eval. intros H; injection H as -> -> ->. auto. Qed.

Lemma modify_Ok (f : S -> S) s w u s' w' :
  modify (W := W) f s w = (Ok u, s', w') -> s' = f s /\ w' = w.
Proof. unfold modify. intros H; injection H as _ <- <-. auto. Qed.

Lemma guard_Ok (b : bool) e s w u s' w' :
  (if b then raise e else ret tt : M S W unit) s w = (Ok u, s', w') ->
  b = false /\ s' = s /\ w' = w.
Proof.
  destruct b; unfold raise, ret; intros H; [discriminate|].
  injection H as _ <- <-. auto.
Qed.

(** A list comprehension over calls leaves the state alone and yields one
    value for each element. *)
Lemma for_each_call_Ok {A B} (f : A -> W -> outcome B * W) xs s w ys s' w' :
  for_each (fun x => call (S := S) (f x)) xs s w = (Ok ys, s', w') ->
  s' = s /\ length ys = length xs.
Proof.
  revert s w ys s' w'. induction xs as [|x xs IH]; simpl; intros s w ys s' w' H.
  - unfold ret in H. injection H as <- <- _. auto.
  - apply bind_Ok in H as (y & s1 & w1 & Hc & H).
    apply call_Ok in Hc as [-> _].
    apply bind_Ok in H as (ys' & s2 & w2 & Hr & H).
    apply IH in Hr as [-> Hl].
    unfold ret in H. injection H as <- <- _. simpl. auto.
Qed.

End Runs.

(** One step of a run that returned: the first call of a sequence
    returned too, and the rest ran from where it left off. *)
Ltac run_step_as H a s1 w1 Hc :=
  apply bind_Ok in H as (a & s1 & w1 & Hc & H);
  try unfold setitem in Hc;
  first [ apply modify_Ok in Hc as [-> ->]
        | apply call_Ok in Hc as [-> Hc]
        | apply guard_Ok in Hc as (Hc & -> & ->)
        | apply eval_Ok in Hc as (Hc & -> & ->)
        | idtac ].

Ltac run_step H :=
  let a := fresh "a" in
  let s1 := fresh "r" in
  let w1 := fresh "w" in
  let Hc := fresh "Hc" in
  run_step_as H a s1 w1 Hc.

Create HintDb untouched.

Section Frame.

Context {W : Type}.

Lemma untouched_ret {A} key (a : A) : untouched (W := W) key (ret a).
Proof. intros r w. reflexivity. Qed.

Lemma untouched_raise {A} key e : untouched (W := W) (A := A) key (raise e).
Proof. intros r w. reflexivity. Qed.

Lemma untouched_eval {A} key (o : outcome A) : untouched (W := W) key (eval o).
Proof. intros r w. reflexivity. Qed.

Lemma untouched_call {A} key (f : W -> outcome A * W) : untouched key (call f).
Proof. intros r w. unfold call. now destruct (f w). Qed.

Lemma untouched_setitem key k v : key <> k -> untouched (W := W) key (setitem k v).
Proof. intros Hk r w. simpl. now apply lookup_insert_ne. Qed.

Lemma untouched_bind {A B} key (c : M Result W A) (k : A -> M Result W B) :
  untouched key c -> (forall a, untouched key (k a)) -> untouched key (bind c k).
Proof.
  intros Hc Hk r w. unfold bind. specialize (Hc r w).
  destruct (c r w) as [[[a|e] r1] w1]; simpl in Hc.
  - now rewrite Hk.
  - exact Hc.
Qed.

Lemma untouched_if {A} key (b : bool) (c1 c2 : M Result W A) :
  untouched key c1 -> untouched key c2 -> untouched key (if b then c1 else c2).
Proof. now destruct b. Qed.

Lemma untouched_for_each {A B} key (f : A -> M Result W B) xs :
  (forall x, untouched key (f x)) -> untouched key (for_each f xs).
Proof.
  intros Hf. induction xs as [|x xs IH]; simpl.
  - apply untouched_ret.
  - apply untouched_bind; [apply Hf|]. intros y.
    apply untouched_bind; [apply IH|]. intros ys. apply untouched_ret.
Qed.

End Frame.

#[local] Hint Resolve untouched_ret untouched_raise untouched_eval untouched_call
  untouched_bind untouched_if untouched_for_each : untouched.
#[local] Hint Extern 1 (untouched _ (setitem _ _)) =>
  apply untouched_setitem; congruence : untouched.

(* ===================================================================== *)
(** ** The Geweke test                                                    *)
(* ===================================================================== *)

Section GewekeRun.

Context {W : Type} (pints : Library W).

Lemma np_empty_untouched key rows : untouched key (Geweke.np_empty pints rows).
Proof.
  unfold Geweke.np_empty. apply untouched_bind; [auto with untouched|].
  intros n. auto with untouched.
Qed.

Lemma np_empty_Ok rows r w u r' w' :
  Geweke.np_empty pints rows r w = (Ok u, r', w') -> r' = r /\ 0 <= rows.
Proof.
  unfold Geweke.np_empty. intros H. run_step_as H n r_n w_n Hn.
  destruct (Z.ltb_spec rows 0); [discriminate|]. simpl in H.
  destruct (n + 1 <? 0); [discriminate|].
  apply call_Ok in H as [-> _]. split; [reflexivity | assumption].
Qed.

Lemma successive_untouched key self m moments todo i prev samples g_samples :
  untouched key (Geweke.successive pints self m moments todo i prev samples g_samples).
Proof.
  revert i prev samples g_samples.
  induction todo as [|todo IH]; intros i prev samples g_samples; simpl;
    auto with untouched.
Qed.

Lemma successive_Ok self m moments todo i prev samples g_samples r w out r' w' :
  Geweke.successive pints self m moments todo i prev samples g_samples r w
  = (Ok out, r', w') ->
  r' = r.
Proof.
  revert i prev samples g_samples r w.
  induction todo as [|todo IH]; intros i prev samples g_samples r w H; simpl in H.
  - unfold ret in H. congruence.
  - do 2 run_step H. now apply IH in H.
Qed.

Lemma single_row_Ok (first : matrix) r w row r' w' :
  match first with
  | [x] => ret x
  | _ => raise ValueError
  end r w = (Ok row, r', w' : W) ->
  r' = (r : Result) /\ w' = w.
Proof. destruct first as [|x [|]]; unfold ret, raise; intros H; split; congruence. Qed.

(** The run writes three fields and no other. *)
Lemma Geweke_run_untouched self log_path key :
  key <> "method"%string -> key <> "p-value"%string -> key <> "status"%string ->
  untouched key (Geweke._run pints self log_path).
Proof.
  intros H1 H2 H3. unfold Geweke._run.
  repeat (apply untouched_bind;
          [auto using successive_untouched, np_empty_untouched with untouched
          | intros ?]);
    auto with untouched.
  match goal with
  | |- untouched _ (match ?x with _ => _ end) => destruct x as [|? [|]]
  end; auto with untouched.
Qed.

(** A completed run made at least one iteration and left this
    dictionary behind. *)
Lemma Geweke_run_inv self log_path r w u r' w' :
  Geweke._run pints self log_path r w = (Ok u, r', w') ->
  1 <= Geweke._max_iter self
  /\ r' = <["status" := VStr (lit "done")]>
            (<["p-value" := VInt 0]>
               (<["method" := VStr (Geweke._method self)]> r)).
Proof.
  intros H. unfold Geweke._run in H.
  do 5 run_step H.
  run_step_as H u_g r_g w_g Hg. apply np_empty_Ok in Hg as [-> Hrows].
  run_step H.
  run_step_as H u_m r_m w_m Hm. apply np_empty_Ok in Hm as [-> _].
  run_step_as H u_v r_v w_v Hv. apply np_empty_Ok in Hv as [-> _].
  run_step H.
  run_step_as H u_t r_t w_t Ht. apply np_empty_Ok in Ht as [-> _].
  run_step H.
  run_step_as H u_z r_z w_z Hz. apply Z.eqb_neq in Hz.
  run_step_as H row r_row w_row Hrow. apply single_row_Ok in Hrow as [-> ->].
  run_step_as H u_a r_a w_a Ha. apply np_empty_Ok in Ha as [-> _].
  run_step_as H u_b r_b w_b Hb. apply np_empty_Ok in Hb as [-> _].
  run_step_as H sg r_loop w_loop Hloop. apply successive_Ok in Hloop as ->.
  do 2 run_step H.
  unfold setitem in H. apply modify_Ok in H as [-> _].
  split; [lia | reflexivity].
Qed.

(** The dictionary a completed run leaves behind. *)
Lemma Geweke_run_Ok self log_path r w u r' w' :
  Geweke._run pints self log_path r w = (Ok u, r', w') ->
  r' = <["status" := VStr (lit "done")]>
         (<["p-value" := VInt 0]>
            (<["method" := VStr (Geweke._method self)]> r)).
Proof. intros H. now apply Geweke_run_inv in H. Qed.

End GewekeRun.

(** C1. [Geweke._analyse] reads the field ['kld'], which [Geweke._run] never
    stores: a run that starts from an empty result leaves ['kld'] unset
    however it ends, and when it returns, the analysis of any history that
    ends with its result fails with [MissingFieldError]. *)
Theorem Geweke_run_leaves_kld_unset {W : Type} (pints : Library W)
    (self : Geweke.t) (log_path : str) (w : W) :
  (Geweke._run pints self log_path ∅ w).1.2 !! "kld" = None
  /\ forall u r' w' (older : list Result),
       Geweke._run pints self log_path ∅ w = (Ok u, r', w') ->
       Geweke._analyse self (older ++ [r']) = Raise MissingFieldError.
Proof.
  assert (Hk : (Geweke._run pints self log_path ∅ w).1.2 !! "kld" = None).
  { rewrite (Geweke_run_untouched pints self log_path "kld") by discriminate.
    apply lookup_empty. }
  split; [exact Hk|]. intros u r' w' older H.
  rewrite H in Hk; simpl in Hk.
  apply Geweke_run_Ok in H.
  assert (Ht : is_terminal r' = true).
  { unfold is_terminal. rewrite H, lookup_insert_eq. reflexivity. }
  unfold Geweke._analyse, assert_not_deviated_from, latest.
  rewrite List.filter_app. simpl. rewrite Ht, last_snoc, Hk. reflexivity.
Qed.

Example Geweke_demo_run :
  Geweke._run Demo.pints Demo.geweke Demo.log_path ∅ tt
  = (Ok tt,
     <["status" := VStr (lit "done")]>
       (<["p-value" := VInt 0]>
          (<["method" := VStr (lit "AdaptiveCovarianceMCMC")]> ∅)),
     tt)
  /\ Geweke._analyse Demo.geweke
       [<["status" := VStr (lit "done")]>
          (<["p-value" := VInt 0]>
             (<["method" := VStr (lit "AdaptiveCovarianceMCMC")]> ∅))]
     = Raise MissingFieldError.
Proof. split; vm_compute; reflexivity. Qed.

(** C10. A run of the Geweke test that returns has written the fields
    ['method'], ['p-value'] and ['status'] and nothing else; ['p-value'] is
    the integer 0; and the result is the same whatever the library sampled:
    two runs of one test from the same dictionary, in any two worlds, leave
    equal dictionaries. *)
Theorem Geweke_result_ignores_samples {W : Type} (pints : Library W)
    (self : Geweke.t) (log_path : str) (r : Result) (w : W) u r' w' :
  Geweke._run pints self log_path r w = (Ok u, r', w') ->
  r' = <["status" := VStr (lit "done")]>
         (<["p-value" := VInt 0]>
            (<["method" := VStr (Geweke._method self)]> r))
  /\ dom r' = {["method"; "p-value"; "status"]} ∪ dom r
  /\ (forall key, key <> "method"%string -> key <> "p-value"%string ->
                  key <> "status"%string -> r' !! key = r !! key)
  /\ r' !! "p-value" = Some (VInt 0)
  /\ (forall (W2 : Type) (pints2 : Library W2) log_path2 w2 u2 r2 w2',
        Geweke._run pints2 self log_path2 r w2 = (Ok u2, r2, w2') -> r2 = r').
Proof.
  intros H. apply Geweke_run_Ok in H. subst r'. split; [reflexivity|].
  split; [rewrite !dom_insert_L; set_solver|].
  split; [intros key H1 H2 H3; now rewrite !lookup_insert_ne by congruence|].
  split; [now rewrite lookup_insert_ne, lookup_insert_eq by discriminate|].
  intros W2 pints2 log_path2 w2 u2 r2 w2' H2.
  now apply Geweke_run_Ok in H2.
Qed.

(** A witness of [Geweke_result_ignores_samples]: the run in the small
    world. *)
Lemma Geweke_result_ignores_samples_witness :
  (Geweke._run Demo.pints Demo.geweke Demo.log_path ∅ tt).1.2 !! "p-value"
  = Some (VInt 0).
Proof.
  refine (proj1 (proj2 (proj2 (proj2
    (Geweke_result_ignores_samples Demo.pints Demo.geweke Demo.log_path ∅ tt
       tt _ tt _))))).
  vm_compute. reflexivity.
Defined.

(* ===================================================================== *)
(** ** Ranges                                                             *)
(* ===================================================================== *)

Section Ranges.

Lemma range_Ok start stop step l :
  range start stop step = Ok l ->
  step <> 0
  /\ l = map (fun k : nat => start + Z.of_nat k * step)
             (seq 0 (Z.to_nat (range_len start stop step))).
Proof.
  unfold range. destruct (Z.eqb_spec step 0); [discriminate|].
  intros H; injection H as <-. auto.
Qed.

Lemma range_length start stop step l :
  range start stop step = Ok l ->
  length l = Z.to_nat (range_len start stop step).
Proof.
  intros H. apply range_Ok in H as [_ ->]. now rewrite length_map, length_seq.
Qed.

Lemma range_lookup start stop step l (k : nat) :
  range start stop step = Ok l ->
  (k < length l)%nat -> l !! k = Some (start + Z.of_nat k * step).
Proof.
  intros H Hk. rewrite (range_length _ _ _ _ H) in Hk.
  apply range_Ok in H as [_ ->].
  change (map ?f ?xs) with (f <$> xs).
  rewrite list_lookup_fmap, lookup_seq_lt by exact Hk. reflexivity.
Qed.

(** With a positive step, the indices of a range are those whose element is
    below the stop. *)
Lemma range_len_spec start stop step (k : Z) :
  0 < step -> 0 <= k ->
  (k < range_len start stop step <-> start + k * step < stop).
Proof.
  intros Hs Hk. unfold range_len.
  destruct (Z.ltb_spec 0 step); [|lia].
  destruct (Z.ltb_spec start stop).
  - pose proof (Z.mul_div_le (stop - start - 1) step Hs).
    pose proof (Z.mul_succ_div_gt (stop - start - 1) step Hs).
    split; intros; nia.
  - split; intros; nia.
Qed.

Lemma range_below_stop start stop step l :
  0 < step -> range start stop step = Ok l -> Forall (fun x => x < stop) l.
Proof.
  intros Hs H. apply Forall_lookup_2. intros k x Hx.
  assert (Hk : (k < length l)%nat) by (eapply lookup_lt_Some; eauto).
  rewrite (range_lookup _ _ _ _ _ H Hk) in Hx. injection Hx as <-.
  apply range_len_spec; [lia | lia |].
  rewrite (range_length _ _ _ _ H) in Hk. lia.
Qed.

Lemma range_complete start stop step l (k : Z) :
  0 < step -> range start stop step = Ok l ->
  0 <= k -> start + k * step < stop -> (start + k * step) ∈ l.
Proof.
  intros Hs H Hk Hlt. apply range_len_spec in Hlt; [|lia|lia].
  apply list_elem_of_lookup. exists (Z.to_nat k).
  rewrite (range_lookup _ _ _ _ _ H).
  - now rewrite Z2Nat.id.
  - rewrite (range_length _ _ _ _ H). lia.
Qed.

(** A range that steps down from below its stop is empty. *)
Lemma range_down_empty start stop step l :
  step < 0 -> start <= stop -> range start stop step = Ok l -> l = [].
Proof.
  intros Hs Hle H. apply range_length in H. apply length_zero_iff_nil.
  rewrite H. unfold range_len.
  destruct (Z.ltb_spec 0 step); [lia|].
  destruct (Z.ltb_spec stop start); [lia | reflexivity].
Qed.

End Ranges.

Example range_of_windows : range 0 (600 - 500 + 20) 20 = Ok [0; 20; 40; 60; 80; 100].
Proof. reflexivity. Qed.

Example range_zero_step : range 0 7 0 = Raise ValueError.
Proof. reflexivity. Qed.

Example range_downwards : range 10 3 (-3) = Ok [10; 7; 4].
Proof. reflexivity. Qed.

(* ===================================================================== *)
(** ** The banana test                                                    *)
(* ===================================================================== *)

Section BananaRun.

Context {W : Type} (pints : Library W).

Lemma run_sampler_Ok self log_path r w chain n_burn r1 w1 :
  MCMCBanana.run_sampler pints self log_path r w = (Ok (chain, n_burn), r1, w1) ->
  r1 = <["method" := VStr (MCMCBanana._method self)]> r
  /\ int_half (MCMCBanana._max_iter self) = Ok n_burn.
Proof.
  intros H. unfold MCMCBanana.run_sampler in H.
  do 7 run_step H.
  run_step_as H n r_n w_n Hn.
  do 2 run_step H.
  unfold ret in H. injection H as _ <- <- _. auto.
Qed.

(** The woven chain is the first component of what the sampler run
    returns. *)
Lemma sample_chain_run self log_path r w chain r1 w1 :
  MCMCBanana.sample_chain pints self log_path r w = (Ok chain, r1, w1) <->
  exists n_burn,
    MCMCBanana.run_sampler pints self log_path r w = (Ok (chain, n_burn), r1, w1).
Proof.
  unfold MCMCBanana.sample_chain, bind, ret.
  destruct (MCMCBanana.run_sampler pints self log_path r w)
    as [[[[c n]|e] r2] w2]; simpl.
  - split.
    + intros H; injection H as <- <- <-. now exists n.
    + intros [n' H]; injection H as <- _ <- <-. reflexivity.
  - split; [discriminate | intros [? ?]; discriminate].
Qed.

Lemma sample_chain_Ok self log_path r w chain r1 w1 :
  MCMCBanana.sample_chain pints self log_path r w = (Ok chain, r1, w1) ->
  r1 = <["method" := VStr (MCMCBanana._method self)]> r.
Proof.
  intros H. apply sample_chain_run in H as [n_burn H].
  now apply run_sampler_Ok in H.
Qed.

Lemma store_metrics_Ok self n_burn chain r w u r' w' :
  MCMCBanana.store_metrics pints self n_burn chain r w = (Ok u, r', w') ->
  exists iters klds kld ess,
    range 0 (Z.of_nat (length chain) - 500 * MCMCBanana._nchains self
             + 20 * MCMCBanana._nchains self)
          (20 * MCMCBanana._nchains self) = Ok iters
    /\ length klds = length iters
    /\ r' = <["status" := VStr (lit "done")]>
              (<["ess" := VFloats ess]>
                 (<["kld" := VFloat kld]>
                    (<["klds" := VFloats klds]>
                       (<["iters" := VInts iters]> r)))).
Proof.
  intros H. unfold MCMCBanana.store_metrics in H.
  run_step_as H iters r_i w_i Hrange.
  run_step H.
  run_step_as H klds r_k w_k Hklds. apply for_each_call_Ok in Hklds as [-> Hlen].
  run_step H.
  run_step_as H kld r_d w_d Hkld.
  run_step H.
  run_step_as H ess r_e w_e Hess.
  run_step H.
  unfold setitem in H. apply modify_Ok in H as [-> _].
  exists iters, klds, kld, ess. auto.
Qed.

Lemma banana_run_Ok self log_path r w u r' w' :
  MCMCBanana._run pints self log_path r w = (Ok u, r', w') ->
  exists chain n_burn r1 w1,
    MCMCBanana.sample_chain pints self log_path r w = (Ok chain, r1, w1)
    /\ int_half (MCMCBanana._max_iter self) = Ok n_burn
    /\ MCMCBanana.store_metrics pints self n_burn chain r1 w1 = (Ok u, r', w').
Proof.
  intros H. unfold MCMCBanana._run in H.
  apply bind_Ok in H as ([chain n_burn] & r1 & w1 & Hc & H).
  exists chain, n_burn, r1, w1. split; [|split].
  - apply sample_chain_run. now exists n_burn.
  - now apply run_sampler_Ok in Hc.
  - exact H.
Qed.

End BananaRun.

(** C9. After a run of the banana test that returns, ['iters'] and ['klds']
    are lists of equal length, and ['iters'] is the arithmetic sequence 0,
    [20 * nchains], [2 * 20 * nchains], ...: it increases strictly, its
    elements are below [n_samples - 500 * nchains + 20 * nchains], where
    [n_samples] is the length of the woven chain, and (for a positive number
    of chains) it holds every such multiple of the step. *)
Theorem banana_sliding_windows {W : Type} (pints : Library W)
    (self : MCMCBanana.t) (log_path : str) (r : Result) (w : W) u r' w' :
  MCMCBanana._run pints self log_path r w = (Ok u, r', w') ->
  exists (chain : matrix) r1 w1 (iters : list Z) (klds : list Q),
    MCMCBanana.sample_chain pints self log_path r w = (Ok chain, r1, w1)
    /\ r' !! "iters" = Some (VInts iters)
    /\ r' !! "klds" = Some (VFloats klds)
    /\ length iters = length klds
    /\ (forall k : nat, (k < length iters)%nat ->
          iters !! k = Some (Z.of_nat k * (20 * MCMCBanana._nchains self)))
    /\ (forall (i j : nat) x y, (i < j)%nat ->
          iters !! i = Some x -> iters !! j = Some y -> x < y)
    /\ Forall (fun x => x < Z.of_nat (length chain)
                            - 500 * MCMCBanana._nchains self
                            + 20 * MCMCBanana._nchains self) iters
    /\ (0 < MCMCBanana._nchains self ->
        forall k, 0 <= k ->
          k * (20 * MCMCBanana._nchains self)
          < Z.of_nat (length chain) - 500 * MCMCBanana._nchains self
            + 20 * MCMCBanana._nchains self ->
          k * (20 * MCMCBanana._nchains self) ∈ iters).
Proof.
  intros H.
  apply banana_run_Ok in H as (chain & n_burn & r1 & w1 & Hs & Hb & H).
  apply store_metrics_Ok in H as (iters & klds & kld & ess & Hr & Hlen & ->).
  exists chain, r1, w1, iters, klds.
  set (c := MCMCBanana._nchains self) in *.
  set (stop := Z.of_nat (length chain) - 500 * c + 20 * c) in *.
  assert (Hk : forall k : nat, (k < length iters)%nat ->
                 iters !! k = Some (Z.of_nat k * (20 * c))).
  { intros k Hk. now rewrite (range_lookup _ _ _ _ _ Hr Hk). }
  assert (Hcases : 0 < c \/ (c < 0 /\ iters = [])).
  { destruct (Z.lt_trichotomy c 0) as [Hc|[Hc|Hc]].
    - right. split; [exact Hc|].
      apply (range_down_empty 0 stop (20 * c)); [lia | unfold stop; lia | exact Hr].
    - apply range_Ok in Hr as [Hne _]. lia.
    - now left. }
  split; [exact Hs|].
  split; [now rewrite !lookup_insert_ne, lookup_insert_eq by discriminate|].
  split; [now rewrite !lookup_insert_ne, lookup_insert_eq by discriminate|].
  split; [now symmetry|]. split; [exact Hk|]. split; [|split].
  - intros i j x y Hij Hi Hj.
    assert (Hjl : (j < length iters)%nat) by (eapply lookup_lt_Some; eauto).
    rewrite Hk in Hi, Hj by lia. injection Hi as <-. injection Hj as <-.
    destruct Hcases as [Hc|[_ ->]]; [nia | simpl in Hjl; lia].
  - destruct Hcases as [Hc|[_ ->]]; [|constructor].
    apply (range_below_stop 0 stop (20 * c)); [lia | exact Hr].
  - intros Hc k Hk0 Hlt.
    apply (range_complete 0 stop (20 * c) iters k); [lia | exact Hr | lia | lia].
Qed.

(** A witness of [banana_sliding_windows]: six windows over a chain of 600
    samples. *)
Lemma banana_sliding_windows_witness :
  exists (chain : matrix) r1 w1 (iters : list Z) (klds : list Q),
    MCMCBanana.sample_chain Demo.pints Demo.banana Demo.log_path ∅ tt
    = (Ok chain, r1, w1)
    /\ (MCMCBanana._run Demo.pints Demo.banana Demo.log_path ∅ tt).1.2 !! "iters"
       = Some (VInts iters)
    /\ (MCMCBanana._run Demo.pints Demo.banana Demo.log_path ∅ tt).1.2 !! "klds"
       = Some (VFloats klds)
    /\ length iters = length klds
    /\ (forall k : nat, (k < length iters)%nat ->
          iters !! k = Some (Z.of_nat k * (20 * MCMCBanana._nchains Demo.banana)))
    /\ (forall (i j : nat) x y, (i < j)%nat ->
          iters !! i = Some x -> iters !! j = Some y -> x < y)
    /\ Forall (fun x => x < Z.of_nat (length chain)
                            - 500 * MCMCBanana._nchains Demo.banana
                            + 20 * MCMCBanana._nchains Demo.banana) iters
    /\ (0 < MCMCBanana._nchains Demo.banana ->
        forall k, 0 <= k ->
          k * (20 * MCMCBanana._nchains Demo.banana)
          < Z.of_nat (length chain) - 500 * MCMCBanana._nchains Demo.banana
            + 20 * MCMCBanana._nchains Demo.banana ->
          k * (20 * MCMCBanana._nchains Demo.banana) ∈ iters).
Proof.
  refine (banana_sliding_windows Demo.pints Demo.banana Demo.log_path ∅ tt
            tt _ tt _).
  vm_compute. reflexivity.
Defined.

Example banana_demo_iters :
  (MCMCBanana._run Demo.pints Demo.banana Demo.log_path ∅ tt).1.2 !! "iters"
  = Some (VInts [0; 20; 40; 60; 80; 100])
  /\ (MCMCBanana._run Demo.pints Demo.banana Demo.log_path ∅ tt).1.2 !! "klds"
     = Some (VFloats [1 # 20; 1 # 20; 1 # 20; 1 # 20; 1 # 20; 1 # 20]%Q).
Proof. split; vm_compute; reflexivity. Qed.

(** C6. A run of either test that returns has set ['status'] to ['done']. *)
Theorem run_sets_status_done {W : Type} (pints : Library W) :
  (forall (self : Geweke.t) (log_path : str) (r : Result) (w : W) u r' w',
      Geweke._run pints self log_path r w = (Ok u, r', w') ->
      r' !! "status" = Some (VStr (lit "done")))
  /\
  (forall (self : MCMCBanana.t) (log_path : str) (r : Result) (w : W) u r' w',
      MCMCBanana._run pints self log_path r w = (Ok u, r', w') ->
      r' !! "status" = Some (VStr (lit "done"))).
Proof.
  split; intros self log_path r w u r' w' H.
  - apply Geweke_run_Ok in H as ->. apply lookup_insert_eq.
  - apply banana_run_Ok in H as (chain & n_burn & r1 & w1 & _ & _ & H).
    apply store_metrics_Ok in H as (iters & klds & kld & ess & _ & _ & ->).
    apply lookup_insert_eq.
Qed.

(** A witness of [run_sets_status_done]: both tests return in the small
    world. *)
Lemma run_sets_status_done_witness :
  (Geweke._run Demo.pints Demo.geweke Demo.log_path ∅ tt).1.2 !! "status"
  = Some (VStr (lit "done"))
  /\ (MCMCBanana._run Demo.pints Demo.banana Demo.log_path ∅ tt).1.2 !! "status"
     = Some (VStr (lit "done")).
Proof.
  split.
  - refine (proj1 (run_sets_status_done Demo.pints)
              Demo.geweke Demo.log_path ∅ tt tt _ tt _).
    vm_compute. reflexivity.
  - refine (proj2 (run_sets_status_done Demo.pints)
              Demo.banana Demo.log_path ∅ tt tt _ tt _).
    vm_compute. reflexivity.
Defined.

(* ===================================================================== *)
(** ** The revision                                                       *)
(* ===================================================================== *)

Section Revision.

Context {W : Type} (env : Checkout W) (DIR_PINTS_REPO DIR_PINTS_MODULE : str).

Abbreviation prepare := (prepare_pints env DIR_PINTS_REPO DIR_PINTS_MODULE).

(** With both globals set, [prepare_pints] takes neither branch. *)
Lemma prepare_pints_frozen g w :
  is_Some (PINTS_COMMIT g) -> is_Some (PINTS_VERSION g) ->
  prepare g w = (Ok tt, g, w).
Proof.
  intros [c Hc] [v Hv]. unfold prepare_pints, bind, get. simpl.
  rewrite Hc. unfold ret. simpl. rewrite Hv. reflexivity.
Qed.

Lemma prepare_pints_times_frozen n g w :
  is_Some (PINTS_COMMIT g) -> is_Some (PINTS_VERSION g) ->
  times n prepare g w = (Ok tt, g, w).
Proof.
  intros Hc Hv. induction n as [|n IH]; simpl; [reflexivity|].
  now rewrite (bind_run _ _ _ _ tt g w) by now apply prepare_pints_frozen.
Qed.

(** A call that returns leaves both globals set. *)
Lemma prepare_pints_Ok g w u g' w' :
  prepare g w = (Ok u, g', w') ->
  is_Some (PINTS_COMMIT g') /\ is_Some (PINTS_VERSION g').
Proof.
  intros H. unfold prepare_pints in H.
  apply bind_Ok in H as (g0 & g0' & w0 & Hg & H).
  unfold get in Hg. injection Hg as <- <- <-.
  apply bind_Ok in H as (u1 & g1 & w1 & H1 & H).
  assert (Hc : is_Some (PINTS_COMMIT g1)).
  { destruct (PINTS_COMMIT g) eqn:E.
    - unfold ret in H1. injection H1 as _ <- _. rewrite E. eauto.
    - do 2 run_step H1. apply modify_Ok in H1 as [-> _]. simpl. eauto. }
  apply bind_Ok in H as (g2 & g2' & w2 & Hg & H).
  unfold get in Hg. injection Hg as <- <- <-.
  destruct (PINTS_VERSION g1) eqn:E.
  - unfold ret in H. injection H as _ <- _. rewrite E. eauto.
  - run_step H.
    apply bind_Ok in H as (g2 & g2' & w2 & Hg & H).
    unfold get in Hg. injection Hg as <- <- <-.
    run_step H.
    apply bind_Ok in H as (u3 & g3 & w3 & Hassert & H).
    assert (g3 = path_insert0 DIR_PINTS_REPO g1) as ->.
    { destruct (bool_decide _); unfold ret, raise in Hassert; congruence. }
    run_step H. apply modify_Ok in H as [-> _]. simpl.
    split; [exact Hc | eauto].
Qed.

End Revision.

(** C7. Once a call of [prepare_pints] has returned, [PINTS_COMMIT] and
    [PINTS_VERSION] are set, and any number of further calls returns with
    the globals and the world as they were, whatever git and pints would
    answer: the revision is neither refreshed nor resolved again. *)
Theorem prepare_pints_resolves_once {W : Type} (env : Checkout W)
    (DIR_PINTS_REPO DIR_PINTS_MODULE : str) (g : globals) (w : W) u g' w' :
  prepare_pints env DIR_PINTS_REPO DIR_PINTS_MODULE g w = (Ok u, g', w') ->
  is_Some (PINTS_COMMIT g') /\ is_Some (PINTS_VERSION g')
  /\ forall (env2 : Checkout W) (w2 : W) (n : nat),
       times n (prepare_pints env2 DIR_PINTS_REPO DIR_PINTS_MODULE) g' w2
       = (Ok tt, g', w2).
Proof.
  intros H. apply prepare_pints_Ok in H as [Hc Hv].
  split; [exact Hc|]. split; [exact Hv|].
  intros env2 w2 n. now apply prepare_pints_times_frozen.
Qed.

Example prepare_pints_first_call :
  prepare_pints Demo.checkout Demo.DIR_PINTS_REPO Demo.DIR_PINTS_MODULE Demo.fresh []
  = (Ok tt,
     {| PINTS_COMMIT := Some (lit "abc123");
        PINTS_VERSION := Some (lit "Pints 0.1.0");
        sys_path := [lit "/pfunk/pints"] |},
     ["refresh"; "hash"; "import"; "version"]%string).
Proof. vm_compute. reflexivity. Qed.

(** A witness of [prepare_pints_resolves_once]: after the first call of a
    process, three more calls make no call to git or pints. *)
Lemma prepare_pints_resolves_once_witness :
  times 3 (prepare_pints Demo.checkout Demo.DIR_PINTS_REPO Demo.DIR_PINTS_MODULE)
    {| PINTS_COMMIT := Some (lit "abc123");
       PINTS_VERSION := Some (lit "Pints 0.1.0");
       sys_path := [lit "/pfunk/pints"] |}
    ["refresh"; "hash"; "import"; "version"]%string
  = (Ok tt,
     {| PINTS_COMMIT := Some (lit "abc123");
        PINTS_VERSION := Some (lit "Pints 0.1.0");
        sys_path := [lit "/pfunk/pints"] |},
     ["refresh"; "hash"; "import"; "version"]%string).
Proof.
  refine (proj2 (proj2
    (prepare_pints_resolves_once Demo.checkout Demo.DIR_PINTS_REPO
       Demo.DIR_PINTS_MODULE Demo.fresh [] tt _ _ _)) Demo.checkout _ 3%nat).
  vm_compute. reflexivity.
Defined.

(* ===================================================================== *)
(** ** Analysis                                                           *)
(* ===================================================================== *)

Section Analysis.

Lemma latest_snoc older r : is_terminal r = true -> latest (older ++ [r]) = Some r.
Proof.
  intros Ht. unfold latest. rewrite List.filter_app. simpl.
  rewrite Ht. apply last_snoc.
Qed.

Lemma not_deviated_value expected threshold history field r v x :
  latest history = Some r -> r !! field = Some v -> as_number v = Some x ->
  assert_not_deviated_from expected threshold history field
  = Ok (Qle_bool (Qabs (x - expected)) threshold).
Proof.
  intros Hl Hf Hx. unfold assert_not_deviated_from. now rewrite Hl, Hf, Hx.
Qed.

Lemma not_deviated_missing expected threshold history field r :
  latest history = Some r -> r !! field = None ->
  assert_not_deviated_from expected threshold history field = Raise MissingFieldError.
Proof.
  intros Hl Hf. unfold assert_not_deviated_from. now rewrite Hl, Hf.
Qed.

Lemma exit_status_failed before after :
  exit_status (before ++ false :: after) = 1.
Proof.
  unfold exit_status. rewrite forallb_app. simpl.
  now rewrite andb_false_r.
Qed.

End Analysis.

(** C2. When the latest terminal result of a history holds the number [x]
    in the named field, [assert_not_deviated_from] returns true exactly when
    [abs(x - expected) <= threshold], and false otherwise. With expected 0
    and threshold 1/10 it returns true for a latest ['kld'] of 1/20 and
    false for 1/5. *)
Theorem not_deviated_iff_within_threshold :
  (forall expected threshold history field r v x,
      latest history = Some r -> r !! field = Some v -> as_number v = Some x ->
      (assert_not_deviated_from expected threshold history field = Ok true
       <-> (Qabs (x - expected) <= threshold)%Q)
      /\ (assert_not_deviated_from expected threshold history field = Ok false
          <-> ~ (Qabs (x - expected) <= threshold)%Q))
  /\ (forall older,
        assert_not_deviated_from 0 (1 # 10) (older ++ [Demo.stored (1 # 20)]) "kld"
        = Ok true)
  /\ (forall older,
        assert_not_deviated_from 0 (1 # 10) (older ++ [Demo.stored (1 # 5)]) "kld"
        = Ok false).
Proof.
  split; [|split].
  - intros expected threshold history field r v x Hl Hf Hx.
    rewrite (not_deviated_value _ _ _ _ _ _ _ Hl Hf Hx).
    rewrite <- Qle_bool_iff.
    destruct (Qle_bool (Qabs (x - expected)) threshold); split; split;
      intros H; try congruence; try (intros ?; congruence).
  - intros older.
    rewrite (not_deviated_value 0 (1 # 10) _ "kld" (Demo.stored (1 # 20))
               (VFloat (1 # 20)) (1 # 20));
      [reflexivity | now apply latest_snoc | reflexivity | reflexivity].
  - intros older.
    rewrite (not_deviated_value 0 (1 # 10) _ "kld" (Demo.stored (1 # 5))
               (VFloat (1 # 5)) (1 # 5));
      [reflexivity | now apply latest_snoc | reflexivity | reflexivity].
Qed.

(** A witness of [not_deviated_iff_within_threshold]: an integer metric two
    away from what is expected, with a threshold of three. *)
Lemma not_deviated_iff_within_threshold_witness :
  assert_not_deviated_from 5 3 [<["n" := VInt 7]> (Demo.stored 0)] "n" = Ok true
  <-> (Qabs (inject_Z 7 - 5) <= 3)%Q.
Proof.
  refine (proj1 (proj1 not_deviated_iff_within_threshold 5%Q 3%Q
                   [<["n" := VInt 7]> (Demo.stored 0)] "n"%string
                   (<["n" := VInt 7]> (Demo.stored 0)) (VInt 7) (inject_Z 7)
                   _ _ _)); reflexivity.
Defined.

(** C3. When the latest terminal result of a history lacks the named field,
    [assert_not_deviated_from] fails with [MissingFieldError]; a test whose
    analysis is that check does not pass, and in a batch the tests before
    and after it get their own verdicts and the exit status is not zero. *)
Theorem missing_field_fails_the_test
    (expected threshold : Q) (field : string)
    (store : gmap str (list Result)) (t : TestCase) (r : Result) :
  analyse t = (fun results => assert_not_deviated_from expected threshold results field) ->
  latest (history store (test_name t)) = Some r ->
  r !! field = None ->
  assert_not_deviated_from expected threshold (history store (test_name t)) field
  = Raise MissingFieldError
  /\ analyse_test store t = false
  /\ forall before after : list TestCase,
       analyse_batch store (before ++ t :: after)
       = analyse_batch store before ++ false :: analyse_batch store after
       /\ exit_status (analyse_batch store (before ++ t :: after)) = 1.
Proof.
  intros Ha Hl Hf.
  pose proof (not_deviated_missing expected threshold _ field r Hl Hf) as Hm.
  assert (Ht : analyse_test store t = false).
  { unfold analyse_test. rewrite Ha, Hm. reflexivity. }
  split; [exact Hm|]. split; [exact Ht|].
  intros before after.
  assert (Hb : analyse_batch store (before ++ t :: after)
               = analyse_batch store before ++ false :: analyse_batch store after).
  { unfold analyse_batch. rewrite map_app. simpl. now rewrite Ht. }
  split; [exact Hb|]. rewrite Hb. apply exit_status_failed.
Qed.

(** A witness of [missing_field_fails_the_test]: the Geweke test over a
    history whose only result stores no ['kld']. *)
Lemma missing_field_fails_the_test_witness :
  analyse_test
    {[ Geweke.name Demo.geweke := [Demo.stored_without_kld] ]}
    {| test_name := Geweke.name Demo.geweke;
       analyse := Geweke._analyse Demo.geweke |}
  = false.
Proof.
  refine (proj1 (proj2
    (missing_field_fails_the_test 0 (1 # 10) "kld"
       {[ Geweke.name Demo.geweke := [Demo.stored_without_kld] ]}
       {| test_name := Geweke.name Demo.geweke;
          analyse := Geweke._analyse Demo.geweke |}
       Demo.stored_without_kld _ _ _)));
    vm_compute; reflexivity.
Defined.

(** The sibling test does store what its analysis reads: a run of the
    banana test that returns has set ['kld'] to a number. *)
Lemma banana_run_stores_kld {W : Type} (pints : Library W)
    (self : MCMCBanana.t) (log_path : str) (r : Result) (w : W) u r' w' :
  MCMCBanana._run pints self log_path r w = (Ok u, r', w') ->
  exists kld, r' !! "kld" = Some (VFloat kld).
Proof.
  intros H. apply banana_run_Ok in H as (chain & n_burn & r1 & w1 & _ & _ & H).
  apply store_metrics_Ok in H as (iters & klds & kld & ess & _ & _ & ->).
  exists kld. now rewrite !lookup_insert_ne, lookup_insert_eq by discriminate.
Qed.

(* ===================================================================== *)
(** ** More on names                                                      *)
(* ===================================================================== *)

Section ValidNames.

Variable unicode_alnum : codepoint -> bool.

Abbreviation is_word := (fun c => Re.word_char unicode_alnum c = true).
Abbreviation is_letter :=
  (fun c => Re.in_charset unicode_alnum
              (Re.Ranges [(chr "a", chr "z"); (chr "A", chr "Z")]) c = true).

Lemma digit_is_word c : is_digit c = true -> is_word c.
Proof.
  unfold is_digit. intros H.
  apply andb_true_iff in H as [H1 H2]. apply N.leb_le in H1, H2.
  unfold Re.word_char. destruct (N.ltb_spec c 128); [|lia].
  unfold Re.ascii_alnum, Re.in_range. cbn [fst snd].
  change (chr "0") with 48%N. change (chr "9") with 57%N.
  rewrite (proj2 (N.leb_le 48 c)), (proj2 (N.leb_le c 57)) by assumption.
  reflexivity.
Qed.

Lemma separator_is_no_word c : path_separator c = true -> ~ is_word c.
Proof.
  unfold path_separator. rewrite !orb_true_iff, !N.eqb_eq.
  intros [[[[-> | ->] | ->] | ->] | ->]; vm_compute; discriminate.
Qed.

Lemma separator_is_no_letter c : path_separator c = true -> ~ is_letter c.
Proof.
  unfold path_separator. rewrite !orb_true_iff, !N.eqb_eq.
  intros [[[[-> | ->] | ->] | ->] | ->]; vm_compute; discriminate.
Qed.

(** A subject that does not end in a newline matches [NAME_FORMAT] when it
    is a letter followed by word characters, and only then. *)
Lemma match_without_newline c init z :
  z <> 10%N ->
  Re.re_match unicode_alnum NAME_FORMAT (c :: init ++ [z]) = true
  <-> is_letter c /\ Forall is_word (init ++ [z]).
Proof.
  intros Hz. rewrite NAME_FORMAT_match_shape. unfold name_shaped. split.
  - intros (c' & body & tail & Hs & Hc & Hb & [-> | ->]);
      injection Hs as <- Hs.
    + rewrite app_nil_r in Hs. subst body. auto.
    + apply app_inj_tail in Hs as [_ ?]. congruence.
  - intros [Hc Hb]. exists c, (init ++ [z]), []. rewrite app_nil_r. auto.
Qed.

Lemma ends_without_newline (a d : str) :
  Forall (fun c => c <> 10%N) d ->
  exists init z, a ++ chr "_" :: d = init ++ [z] /\ z <> 10%N.
Proof.
  intros Hd. destruct d as [|x d _] using rev_ind.
  - exists a, (chr "_"). split; [reflexivity | discriminate].
  - exists (a ++ chr "_" :: d), x. split.
    + now rewrite <- app_assoc.
    + apply Forall_app in Hd as [_ Hx]. now inversion Hx.
Qed.

Lemma str_of_int_no_newline n : Forall (fun c => c <> 10%N) (str_of_int n).
Proof.
  eapply Forall_impl; [apply str_of_int_chars|]. simpl.
  intros c [Hd | ->]; [|discriminate]. intros ->. discriminate.
Qed.

Lemma str_of_int_is_word n : Forall is_word (str_of_int n) <-> 0 <= n.
Proof.
  split.
  - intros H. destruct n as [|p|p]; try lia.
    unfold str_of_int, pretty, pretty_Z in H. rewrite lit_app in H.
    apply Forall_app in H as [H _]. inversion H as [|? ? Hdash _]; subst.
    vm_compute in Hdash. discriminate.
  - intros Hn. rewrite str_of_int_nonneg by exact Hn.
    eapply Forall_impl; [apply pretty_N_digits|]. apply digit_is_word.
Qed.

(** The names the two tests compute, against [NAME_FORMAT]. *)
Lemma computed_name_matches (c : codepoint) (prefix method : str) (n : Z) :
  is_letter c -> Forall is_word prefix ->
  Re.re_match unicode_alnum NAME_FORMAT
    ((c :: prefix) ++ method ++ lit "_" ++ str_of_int n) = true
  <-> Forall is_word method /\ 0 <= n.
Proof.
  intros Hc Hp.
  destruct (ends_without_newline (prefix ++ method) (str_of_int n))
    as (init & z & Hs & Hz); [apply str_of_int_no_newline|].
  assert (He : (c :: prefix) ++ method ++ lit "_" ++ str_of_int n
               = c :: init ++ [z]).
  { simpl. f_equal. rewrite <- Hs, <- app_assoc. reflexivity. }
  assert (Hu : is_word (chr "_")) by reflexivity.
  rewrite He. unfold str, codepoint in *. split.
  - intros H. apply (match_without_newline c init z Hz) in H as [_ H].
    rewrite <- Hs in H.
    apply Forall_app in H as [H Hn]. apply Forall_app in H as [_ Hm].
    apply Forall_cons in Hn as [_ Hn]. apply str_of_int_is_word in Hn. auto.
  - intros [Hm Hn]. apply (match_without_newline c init z Hz).
    split; [exact Hc|]. rewrite <- Hs.
    apply Forall_app. split; [apply Forall_app; auto|].
    apply Forall_cons. split; [exact Hu | now apply str_of_int_is_word].
Qed.

End ValidNames.

(** X1. [NAME_FORMAT.match] accepts a subject exactly when it is an ASCII
    letter, then word characters, then nothing or the single newline that
    [$] lets pass; so the empty string and a name followed by two newlines
    are rejected, and a name followed by one newline is accepted. *)
Theorem name_format_accepts (unicode_alnum : codepoint -> bool) :
  (forall name : str,
      Re.re_match unicode_alnum NAME_FORMAT name = true
      <-> name_shaped unicode_alnum name)
  /\ Re.re_match unicode_alnum NAME_FORMAT [] = false
  /\ Re.re_match unicode_alnum NAME_FORMAT (lit "t1" ++ [10%N]) = true
  /\ Re.re_match unicode_alnum NAME_FORMAT (lit "t1" ++ [10%N; 10%N]) = false
  /\ Re.re_match unicode_alnum NAME_FORMAT (lit "t" ++ [10%N] ++ lit "1") = false.
Proof.
  split; [intros name; apply NAME_FORMAT_match_shape|].
  repeat split; vm_compute; reflexivity.
Qed.

(** X2. The name a test computes matches [NAME_FORMAT] exactly when the
    method name is made of word characters and the number of chains is not
    negative: the minus sign of a negative count is no word character. *)
Theorem computed_names_valid (unicode_alnum : codepoint -> bool)
    (method : str) (nchains : Z) (pass_threshold : Q) (max_iter : Z) :
  (Re.re_match unicode_alnum NAME_FORMAT
     (Geweke.name (Geweke.init method nchains pass_threshold max_iter)) = true
   <-> Forall (fun c => Re.word_char unicode_alnum c = true) method
       /\ 0 <= nchains)
  /\ (Re.re_match unicode_alnum NAME_FORMAT
        (MCMCBanana.name (MCMCBanana.init method nchains pass_threshold max_iter))
      = true
      <-> Forall (fun c => Re.word_char unicode_alnum c = true) method
          /\ 0 <= nchains).
Proof.
  split.
  - apply (computed_name_matches unicode_alnum (chr "g") (lit "eweke_mcmc"));
      [reflexivity | repeat constructor].
  - apply (computed_name_matches unicode_alnum (chr "m") (lit "cmc_banana_"));
      [reflexivity | repeat constructor].
Qed.

(** X3. A Geweke test and a banana test never compute the same name,
    whatever their parameters. *)
Theorem test_classes_never_share_a_name
    (m1 : str) (n1 : Z) (p1 : Q) (i1 : Z) (m2 : str) (n2 : Z) (p2 : Q) (i2 : Z) :
  Geweke.name (Geweke.init m1 n1 p1 i1)
  = MCMCBanana.name (MCMCBanana.init m2 n2 p2 i2)
  <-> False.
Proof. split; [simpl; discriminate | tauto]. Qed.

(** X4. A name that [NAME_FORMAT] accepts is not empty and holds no slash,
    backslash, dot, space or NUL. *)
Theorem valid_name_is_a_path_component (unicode_alnum : codepoint -> bool)
    (name : str) :
  Re.re_match unicode_alnum NAME_FORMAT name = true ->
  name <> [] /\ Forall (fun c => path_separator c = false) name.
Proof.
  intros H. apply NAME_FORMAT_match_shape in H
    as (c & body & tail & -> & Hc & Hb & Ht).
  split; [discriminate|].
  constructor.
  - destruct (path_separator c) eqn:E; [|reflexivity].
    now apply (separator_is_no_letter unicode_alnum) in E.
  - apply Forall_app. split.
    + eapply Forall_impl; [exact Hb|]. simpl. intros x Hx.
      destruct (path_separator x) eqn:E; [|reflexivity].
      now apply (separator_is_no_word unicode_alnum) in E.
    + destruct Ht as [-> | ->]; repeat constructor.
Qed.

(** A witness of [valid_name_is_a_path_component]: the name of the Geweke
    test of the small world. *)
Lemma valid_name_is_a_path_component_witness :
  Geweke.name Demo.geweke <> []
  /\ Forall (fun c => path_separator c = false) (Geweke.name Demo.geweke).
Proof.
  apply (valid_name_is_a_path_component (fun _ => false)).
  vm_compute. reflexivity.
Defined.

(* ===================================================================== *)
(** ** More on dates                                                      *)
(* ===================================================================== *)

Section DateFields.

Lemma two_digits_small n :
  0 <= n < 10 -> two_digits n = [48%N; chr (pretty_N_char (Z.to_N n))].
Proof.
  intros Hn. unfold two_digits. destruct (Z.ltb_spec n 10); [|lia].
  rewrite str_of_int_nonneg, pretty_one_digit by lia. reflexivity.
Qed.

Lemma two_digits_large n :
  10 <= n <= 99 ->
  two_digits n = [chr (pretty_N_char (N.div (Z.to_N n) 10));
                  chr (pretty_N_char (N.modulo (Z.to_N n) 10))].
Proof.
  intros Hn. unfold two_digits. destruct (Z.ltb_spec n 10); [lia|].
  rewrite str_of_int_nonneg, pretty_two_digits by lia. reflexivity.
Qed.

Lemma digit_char_inj x y :
  (x < 10)%N -> (y < 10)%N ->
  chr (pretty_N_char x) = chr (pretty_N_char y) -> x = y.
Proof. intros Hx Hy H. apply chr_inj in H. now apply pretty_N_char_inj. Qed.

(** Two fields printed alike hold the same number. *)
Lemma two_digits_inj a b :
  0 <= a <= 99 -> 0 <= b <= 99 -> two_digits a = two_digits b -> a = b.
Proof.
  intros Ha Hb Heq.
  assert (Hd : forall n : N, (n < 100)%N -> (N.div n 10 < 10)%N).
  { intros n Hn. zify. Z.to_euclidean_division_equations. lia. }
  assert (Hm : forall n : N, (N.modulo n 10 < 10)%N).
  { intros n. apply N.mod_lt. discriminate. }
  destruct (Z.ltb_spec a 10) as [La|La], (Z.ltb_spec b 10) as [Lb|Lb].
  - rewrite !two_digits_small in Heq by lia. injection Heq as Heq.
    apply digit_char_inj in Heq; lia.
  - rewrite two_digits_small, two_digits_large in Heq by lia.
    injection Heq as Hx _.
    apply (digit_char_inj 0) in Hx; [| lia | apply Hd; lia].
    zify. Z.to_euclidean_division_equations. lia.
  - rewrite two_digits_large, two_digits_small in Heq by lia.
    injection Heq as Hx _.
    symmetry in Hx. apply (digit_char_inj 0) in Hx; [| lia | apply Hd; lia].
    zify. Z.to_euclidean_division_equations. lia.
  - rewrite !two_digits_large in Heq by lia. injection Heq as Hx Hy.
    apply digit_char_inj in Hx; [| apply Hd; lia | apply Hd; lia].
    apply digit_char_inj in Hy; [| apply Hm | apply Hm].
    zify. Z.to_euclidean_division_equations. lia.
Qed.

Lemma two_digits_pair n : 0 <= n <= 99 -> exists a b, two_digits n = [a; b].
Proof.
  intros Hn. destruct (two_digits_field n Hn) as (a & b & E & _). eauto.
Qed.

(** The string [time.strftime] makes of [DATE_FORMAT] for a time it
    accepts. *)
Lemma strftime_DATE_FORMAT t :
  tm_accepted t = true ->
  time_strftime DATE_FORMAT t
  = Ok (str_of_int (tm_year t) ++ lit "-"
        ++ two_digits (Z.max 1 (tm_mon t)) ++ lit "-"
        ++ two_digits (Z.max 1 (tm_mday t)) ++ lit "-"
        ++ two_digits (tm_hour t) ++ lit ":"
        ++ two_digits (tm_min t) ++ lit ":"
        ++ two_digits (tm_sec t)).
Proof. intros Hr. rewrite strftime_accepted by exact Hr. apply expand_DATE_FORMAT. Qed.

Lemma strftime_DATE_FORMAT_inj t1 t2 :
  tm_accepted t1 = true -> tm_accepted t2 = true ->
  time_strftime DATE_FORMAT t1 = time_strftime DATE_FORMAT t2 ->
  date_fields t1 = date_fields t2.
Proof.
  intros Hr1 Hr2 H.
  rewrite !strftime_DATE_FORMAT in H by assumption. injection H as H.
  destruct (tm_accepted_bounds _ Hr1) as (Hmo1 & Hda1 & Hh1 & Hmi1 & Hs1).
  destruct (tm_accepted_bounds _ Hr2) as (Hmo2 & Hda2 & Hh2 & Hmi2 & Hs2).
  destruct (two_digits_pair (Z.max 1 (tm_mon t1))) as (a1 & b1 & Emo1); [lia|].
  destruct (two_digits_pair (Z.max 1 (tm_mday t1))) as (c1 & d1 & Eda1); [lia|].
  destruct (two_digits_pair (tm_hour t1)) as (e1 & f1 & Eh1); [lia|].
  destruct (two_digits_pair (tm_min t1)) as (g1 & h1 & Emi1); [lia|].
  destruct (two_digits_pair (tm_sec t1)) as (i1 & j1 & Es1); [lia|].
  destruct (two_digits_pair (Z.max 1 (tm_mon t2))) as (a2 & b2 & Emo2); [lia|].
  destruct (two_digits_pair (Z.max 1 (tm_mday t2))) as (c2 & d2 & Eda2); [lia|].
  destruct (two_digits_pair (tm_hour t2)) as (e2 & f2 & Eh2); [lia|].
  destruct (two_digits_pair (tm_min t2)) as (g2 & h2 & Emi2); [lia|].
  destruct (two_digits_pair (tm_sec t2)) as (i2 & j2 & Es2); [lia|].
  assert (Hy : str_of_int (tm_year t1) = str_of_int (tm_year t2)
               /\ [a1; b1] = [a2; b2] /\ [c1; d1] = [c2; d2]
               /\ [e1; f1] = [e2; f2] /\ [g1; h1] = [g2; h2]
               /\ [i1; j1] = [i2; j2]).
  { unfold str, codepoint in *.
    rewrite Emo1, Eda1, Eh1, Emi1, Es1, Emo2, Eda2, Eh2, Emi2, Es2 in H.
    apply app_inj_2 in H as [Hy H]; [|reflexivity].
    simpl in H. injection H as -> -> -> -> -> -> -> -> -> ->.
    repeat split; assumption. }
  destruct Hy as (Hy & Hmo & Hda & Hh & Hmi & Hs).
  unfold date_fields.
  rewrite (str_of_int_inj _ _ Hy).
  rewrite (two_digits_inj (Z.max 1 (tm_mon t1)) (Z.max 1 (tm_mon t2)))
    by (try lia; congruence).
  rewrite (two_digits_inj (Z.max 1 (tm_mday t1)) (Z.max 1 (tm_mday t2)))
    by (try lia; congruence).
  rewrite (two_digits_inj (tm_hour t1) (tm_hour t2)) by (try lia; congruence).
  rewrite (two_digits_inj (tm_min t1) (tm_min t2)) by (try lia; congruence).
  rewrite (two_digits_inj (tm_sec t1) (tm_sec t2)) by (try lia; congruence).
  reflexivity.
Qed.

End DateFields.

(** X5. For two times that [time.strftime] accepts (every field a C [int],
    the year at least [INT_MIN + 1900], the other fields in their ranges),
    the two dates are the same string exactly when the times agree on
    year, month, day, hour, minute and second (a month or a day of zero
    counting as one): the formatted date can be read back. *)
Theorem date_tells_times_apart
    (localtime1 localtime2 : struct_time) (when1 when2 : option struct_time) :
  tm_accepted (time_given localtime1 when1) = true ->
  tm_accepted (time_given localtime2 when2) = true ->
  (date localtime1 when1 = date localtime2 when2
   <-> date_fields (time_given localtime1 when1)
       = date_fields (time_given localtime2 when2)).
Proof.
  intros Hr1 Hr2.
  assert (Hd : forall lt w, date lt w = time_strftime DATE_FORMAT (time_given lt w))
    by (intros lt [t|]; reflexivity).
  rewrite !Hd. split.
  - now apply strftime_DATE_FORMAT_inj.
  - intros H. rewrite !strftime_DATE_FORMAT by assumption.
    unfold date_fields in H. injection H as -> -> -> -> -> ->. reflexivity.
Qed.

(** A witness of [date_tells_times_apart]: a time given as [when] and the
    same second read from the clock, with another day of the week. *)
Lemma date_tells_times_apart_witness :
  date a_wednesday None
  = date a_wednesday
      (Some {| tm_year := 2018; tm_mon := 7; tm_mday := 4;
               tm_hour := 13; tm_min := 5; tm_sec := 9;
               tm_wday := 0; tm_yday := 0; tm_isdst := 0 |}).
Proof.
  apply (proj2 (date_tells_times_apart a_wednesday a_wednesday None
                  (Some {| tm_year := 2018; tm_mon := 7; tm_mday := 4;
                           tm_hour := 13; tm_min := 5; tm_sec := 9;
                           tm_wday := 0; tm_yday := 0; tm_isdst := 0 |})
                  eq_refl eq_refl)).
  reflexivity.
Defined.

(* ===================================================================== *)
(** ** More on the revision                                               *)
(* ===================================================================== *)

(** Every way [prepare_pints] can go, one oracle answer at a time. *)
Ltac prepare_cases env :=
  unfold prepare_pints, bind, get, call, modify, ret, raise; simpl;
  repeat (match goal with
          | |- context [pints_refresh env ?w] =>
              destruct (pints_refresh env w) as [[?|?] ?]
          | |- context [pints_hash env ?w] =>
              destruct (pints_hash env w) as [[?|?] ?]
          | |- context [import_pints env ?p ?w] =>
              destruct (import_pints env p w) as [[?|?] ?]
          | |- context [pints_version env ?w] =>
              destruct (pints_version env w) as [[?|?] ?]
          | |- context [bool_decide ?P] => destruct (bool_decide P)
          end; simpl).

(** X6. However a call of [prepare_pints] ends, a commit that was set stays
    as it was, a version that was set stays as it was and leaves [sys.path]
    alone, and [sys.path] is either unchanged or has [DIR_PINTS_REPO] put in
    front of it. *)
Theorem prepare_pints_keeps_what_is_set {W : Type} (env : Checkout W)
    (DIR_PINTS_REPO DIR_PINTS_MODULE : str) (g : globals) (w : W) :
  (forall c, PINTS_COMMIT g = Some c ->
     PINTS_COMMIT (prepare_pints env DIR_PINTS_REPO DIR_PINTS_MODULE g w).1.2
     = Some c)
  /\ (forall v, PINTS_VERSION g = Some v ->
        PINTS_VERSION (prepare_pints env DIR_PINTS_REPO DIR_PINTS_MODULE g w).1.2
        = Some v
        /\ sys_path (prepare_pints env DIR_PINTS_REPO DIR_PINTS_MODULE g w).1.2
           = sys_path g)
  /\ (sys_path (prepare_pints env DIR_PINTS_REPO DIR_PINTS_MODULE g w).1.2
      = sys_path g
      \/ sys_path (prepare_pints env DIR_PINTS_REPO DIR_PINTS_MODULE g w).1.2
         = DIR_PINTS_REPO :: sys_path g).
Proof.
  destruct g as [c v p]. simpl.
  split; [|split].
  - intros c' ->. destruct v; prepare_cases env; reflexivity.
  - intros v' ->. destruct c; prepare_cases env; split; reflexivity.
  - destruct c, v; prepare_cases env; auto.
Qed.

(** X7. When git fails, in the refresh or in the lookup of the hash,
    [prepare_pints] fails the same way and leaves the globals as they
    were. *)
Theorem prepare_pints_git_failure {W : Type} (env : Checkout W)
    (DIR_PINTS_REPO DIR_PINTS_MODULE : str) (g : globals) (w : W) :
  PINTS_COMMIT g = None ->
  (forall e w1,
      pints_refresh env w = (Raise e, w1) ->
      prepare_pints env DIR_PINTS_REPO DIR_PINTS_MODULE g w = (Raise e, g, w1))
  /\ (forall u e w1 w2,
        pints_refresh env w = (Ok u, w1) ->
        pints_hash env w1 = (Raise e, w2) ->
        prepare_pints env DIR_PINTS_REPO DIR_PINTS_MODULE g w = (Raise e, g, w2)).
Proof.
  intros Hc. split.
  - intros e w1 Hr.
    unfold prepare_pints, bind, get, call. rewrite Hc, Hr. reflexivity.
  - intros u e w1 w2 Hr Hh.
    unfold prepare_pints, bind, get, call. rewrite Hc, Hr, Hh. reflexivity.
Qed.

(** A witness of [prepare_pints_git_failure]: the remote cannot be
    reached. *)
Lemma prepare_pints_git_failure_witness :
  prepare_pints Demo.unreachable Demo.DIR_PINTS_REPO Demo.DIR_PINTS_MODULE
    Demo.fresh []
  = (Raise SyncError, Demo.fresh, ["refresh"%string]).
Proof.
  apply (proj1 (prepare_pints_git_failure Demo.unreachable
                  Demo.DIR_PINTS_REPO Demo.DIR_PINTS_MODULE Demo.fresh []
                  eq_refl)).
  reflexivity.
Defined.

(** X8. With the commit resolved and the version not, a [pints] package
    imported from another place than [DIR_PINTS_MODULE] fails the
    assertion: [pints.version] is not asked, the version stays unset and
    [DIR_PINTS_REPO] has been put in front of [sys.path]; a second attempt
    puts it there once more. *)
Theorem prepare_pints_wrong_import {W : Type} (env : Checkout W)
    (DIR_PINTS_REPO DIR_PINTS_MODULE : str) (g : globals) (w : W)
    (c path0 : str) (w1 : W) :
  PINTS_COMMIT g = Some c -> PINTS_VERSION g = None ->
  import_pints env (DIR_PINTS_REPO :: sys_path g) w = (Ok path0, w1) ->
  path0 <> DIR_PINTS_MODULE ->
  prepare_pints env DIR_PINTS_REPO DIR_PINTS_MODULE g w
  = (Raise AssertionError,
     {| PINTS_COMMIT := Some c; PINTS_VERSION := None;
        sys_path := DIR_PINTS_REPO :: sys_path g |}, w1)
  /\ forall path1 w2,
       import_pints env (DIR_PINTS_REPO :: DIR_PINTS_REPO :: sys_path g) w1
       = (Ok path1, w2) ->
       path1 <> DIR_PINTS_MODULE ->
       (prepare_pints env DIR_PINTS_REPO DIR_PINTS_MODULE
          (prepare_pints env DIR_PINTS_REPO DIR_PINTS_MODULE g w).1.2 w1)
       = (Raise AssertionError,
          {| PINTS_COMMIT := Some c; PINTS_VERSION := None;
             sys_path := DIR_PINTS_REPO :: DIR_PINTS_REPO :: sys_path g |}, w2).
Proof.
  intros Hc Hv Hi Hp.
  assert (H1 : forall g0 w0 p0 w',
             PINTS_COMMIT g0 = Some c -> PINTS_VERSION g0 = None ->
             import_pints env (DIR_PINTS_REPO :: sys_path g0) w0 = (Ok p0, w') ->
             p0 <> DIR_PINTS_MODULE ->
             prepare_pints env DIR_PINTS_REPO DIR_PINTS_MODULE g0 w0
             = (Raise AssertionError,
                {| PINTS_COMMIT := Some c; PINTS_VERSION := None;
                   sys_path := DIR_PINTS_REPO :: sys_path g0 |}, w')).
  { intros g0 w0 p0 w' Hc0 Hv0 Hi0 Hp0.
    unfold prepare_pints, bind, get, call, modify, ret, raise.
    rewrite Hc0, Hv0. simpl. rewrite Hi0.
    rewrite bool_decide_eq_false_2 by exact Hp0.
    unfold path_insert0. now rewrite Hc0, Hv0. }
  split; [now apply (H1 g w path0 w1)|].
  intros path1 w2 Hi2 Hp2. rewrite (H1 g w path0 w1) by assumption.
  exact (H1 {| PINTS_COMMIT := Some c; PINTS_VERSION := None;
               sys_path := DIR_PINTS_REPO :: sys_path g |}
            w1 path1 w2 eq_refl eq_refl Hi2 Hp2).
Qed.

(** A witness of [prepare_pints_wrong_import]: another installation of
    pints comes first. *)
Lemma prepare_pints_wrong_import_witness :
  prepare_pints Demo.shadowed Demo.DIR_PINTS_REPO Demo.DIR_PINTS_MODULE
    {| PINTS_COMMIT := Some (lit "abc123"); PINTS_VERSION := None;
       sys_path := [] |} []
  = (Raise AssertionError,
     {| PINTS_COMMIT := Some (lit "abc123"); PINTS_VERSION := None;
        sys_path := [Demo.DIR_PINTS_REPO] |}, ["import"%string]).
Proof.
  refine (proj1 (prepare_pints_wrong_import Demo.shadowed
                   Demo.DIR_PINTS_REPO Demo.DIR_PINTS_MODULE
                   {| PINTS_COMMIT := Some (lit "abc123");
                      PINTS_VERSION := None; sys_path := [] |} []
                   (lit "abc123") (lit "/usr/lib/python3/pints")
                   ["import"%string] eq_refl eq_refl eq_refl _)).
  vm_compute. discriminate.
Defined.

(** X9. Once the commit is set, [prepare_pints] does not depend on git:
    with any other refresh and any other hash lookup it ends the same
    way, also while the version is still to be resolved. *)
Theorem prepare_pints_skips_git {W : Type} (env : Checkout W)
    (DIR_PINTS_REPO DIR_PINTS_MODULE : str) (g : globals) (w : W) (c : str) :
  PINTS_COMMIT g = Some c ->
  forall (refresh : W -> outcome unit * W) (hash : W -> outcome str * W),
    prepare_pints
      {| pints_refresh := refresh; pints_hash := hash;
         import_pints := import_pints env;
         pints_version := pints_version env |}
      DIR_PINTS_REPO DIR_PINTS_MODULE g w
    = prepare_pints env DIR_PINTS_REPO DIR_PINTS_MODULE g w.
Proof.
  intros Hc refresh hash.
  unfold prepare_pints, bind, get. rewrite Hc. reflexivity.
Qed.

(** A witness of [prepare_pints_skips_git]: with the commit set, a remote
    out of reach does not matter. *)
Lemma prepare_pints_skips_git_witness :
  prepare_pints Demo.unreachable Demo.DIR_PINTS_REPO Demo.DIR_PINTS_MODULE
    {| PINTS_COMMIT := Some (lit "abc123"); PINTS_VERSION := None;
       sys_path := [] |} []
  = prepare_pints Demo.checkout Demo.DIR_PINTS_REPO Demo.DIR_PINTS_MODULE
      {| PINTS_COMMIT := Some (lit "abc123"); PINTS_VERSION := None;
         sys_path := [] |} [].
Proof.
  exact (prepare_pints_skips_git Demo.checkout
           Demo.DIR_PINTS_REPO Demo.DIR_PINTS_MODULE
           {| PINTS_COMMIT := Some (lit "abc123"); PINTS_VERSION := None;
              sys_path := [] |} [] (lit "abc123") eq_refl
           (pints_refresh Demo.unreachable) (pints_hash Demo.unreachable)).
Defined.

(** X10. A first call in which git and pints answer resolves the revision
    in this order: refresh, hash, [DIR_PINTS_REPO] in front of [sys.path],
    import with that path, version; it returns with the hash and the version
    it was given. *)
Theorem prepare_pints_first_resolution {W : Type} (env : Checkout W)
    (DIR_PINTS_REPO DIR_PINTS_MODULE : str) (g : globals)
    (w w1 w2 w3 w4 : W) (u : unit) (h v : str) :
  PINTS_COMMIT g = None -> PINTS_VERSION g = None ->
  pints_refresh env w = (Ok u, w1) ->
  pints_hash env w1 = (Ok h, w2) ->
  import_pints env (DIR_PINTS_REPO :: sys_path g) w2 = (Ok DIR_PINTS_MODULE, w3) ->
  pints_version env w3 = (Ok v, w4) ->
  prepare_pints env DIR_PINTS_REPO DIR_PINTS_MODULE g w
  = (Ok tt,
     {| PINTS_COMMIT := Some h; PINTS_VERSION := Some v;
        sys_path := DIR_PINTS_REPO :: sys_path g |}, w4).
Proof.
  intros Hc Hv Hr Hh Hi Hver.
  unfold prepare_pints, bind, get, call, modify, ret, raise.
  rewrite Hc, Hr, Hh. simpl. rewrite Hv. simpl. rewrite Hi.
  rewrite bool_decide_eq_true_2 by reflexivity. rewrite Hver. reflexivity.
Qed.

(** A witness of [prepare_pints_first_resolution], in the world that lists
    the calls made. *)
Lemma prepare_pints_first_resolution_witness :
  prepare_pints Demo.checkout Demo.DIR_PINTS_REPO Demo.DIR_PINTS_MODULE
    Demo.fresh []
  = (Ok tt,
     {| PINTS_COMMIT := Some (lit "abc123");
        PINTS_VERSION := Some (lit "Pints 0.1.0");
        sys_path := [Demo.DIR_PINTS_REPO] |},
     ["refresh"; "hash"; "import"; "version"]%string).
Proof.
  exact (prepare_pints_first_resolution Demo.checkout
           Demo.DIR_PINTS_REPO Demo.DIR_PINTS_MODULE Demo.fresh
           [] ["refresh"%string] ["refresh"; "hash"]%string
           ["refresh"; "hash"; "import"]%string
           ["refresh"; "hash"; "import"; "version"]%string
           tt (lit "abc123") (lit "Pints 0.1.0")
           eq_refl eq_refl eq_refl eq_refl eq_refl eq_refl).
Defined.

(* ===================================================================== *)
(** ** Runs that raise                                                    *)
(* ===================================================================== *)

Section Raising.

Context {S W : Type}.

Lemma silent_ret {A} (a : A) : silent (S := S) (W := W) (ret a).
Proof. intros s w. reflexivity. Qed.

Lemma silent_raise {A} e : silent (S := S) (W := W) (A := A) (raise e).
Proof. intros s w. reflexivity. Qed.

Lemma silent_eval {A} (o : outcome A) : silent (S := S) (W := W) (eval o).
Proof. intros s w. reflexivity. Qed.

Lemma silent_call {A} (f : W -> outcome A * W) : silent (S := S) (call f).
Proof. intros s w. unfold call. now destruct (f w). Qed.

Lemma silent_if {A} (b : bool) (c1 c2 : M S W A) :
  silent c1 -> silent c2 -> silent (if b then c1 else c2).
Proof. now destruct b. Qed.

Lemma silent_bind {A B} (c : M S W A) (k : A -> M S W B) :
  silent c -> (forall a, silent (k a)) -> silent (bind c k).
Proof.
  intros Hc Hk s w. unfold bind. specialize (Hc s w).
  destruct (c s w) as [[[a|e] s1] w1]; simpl in Hc; subst s1.
  - apply Hk.
  - reflexivity.
Qed.

Lemma silent_state {A} (c : M S W A) s w o s' w' :
  silent c -> c s w = (o, s', w') -> s' = s.
Proof. intros Hc H. specialize (Hc s w). now rewrite H in Hc. Qed.

(** After silent steps, a raise still finds the state as it was. *)
Lemma raises_clean_bind {A B} (c : M S W A) (k : A -> M S W B) :
  silent c -> (forall a, raises_clean (k a)) -> raises_clean (bind c k).
Proof.
  intros Hc Hk s w e s' w' H. unfold bind in H.
  destruct (c s w) as [[[a|e0] s1] w1] eqn:E.
  - apply (silent_state _ _ _ _ _ _ Hc) in E as ->. now apply Hk in H.
  - injection H as _ <- _. now apply (silent_state _ _ _ _ _ _ Hc) in E.
Qed.

Lemma bind_assoc {A B C} (c : M S W A) (k : A -> M S W B) (h : B -> M S W C) s w :
  bind (bind c k) h s w = bind c (fun a => bind (k a) h) s w.
Proof.
  unfold bind. destruct (c s w) as [[[a|e] s1] w1]; reflexivity.
Qed.

Lemma bind_Raise {A B} (c : M S W A) (k : A -> M S W B) s w e s' w' :
  bind c k s w = (Raise e, s', w') ->
  c s w = (Raise e, s', w')
  \/ exists a s1 w1, c s w = (Ok a, s1, w1) /\ k a s1 w1 = (Raise e, s', w').
Proof.
  unfold bind. destruct (c s w) as [[[a|e0] s1] w1]; intros H;
    [right; eauto 10 | left; injection H as -> -> ->; reflexivity].
Qed.

(** A list comprehension over calls pairs each element with the answer
    the call gave for it. *)
Lemma for_each_call_answers {A B} (f : A -> W -> outcome B * W) xs s w ys s' w' :
  for_each (fun x => call (S := S) (f x)) xs s w = (Ok ys, s', w') ->
  Forall2 (fun x y => exists wa wb, f x wa = (Ok y, wb)) xs ys.
Proof.
  revert s w ys s' w'. induction xs as [|x xs IH]; simpl; intros s w ys s' w' H.
  - unfold ret in H. injection H as <- _ _. constructor.
  - apply bind_Ok in H as (y & s1 & w1 & Hc & H).
    apply call_Ok in Hc as [-> Hc].
    apply bind_Ok in H as (ys' & s2 & w2 & Hr & H).
    apply IH in Hr.
    unfold ret in H. injection H as <- _ _. constructor; eauto.
Qed.

End Raising.

Create HintDb silent.

#[local] Hint Resolve silent_ret silent_raise silent_eval silent_call
  silent_if silent_bind : silent.

Section GewekeRaising.

Context {W : Type} (pints : Library W).

Lemma np_empty_silent rows : silent (Geweke.np_empty pints rows).
Proof.
  unfold Geweke.np_empty. apply silent_bind; [auto with silent|].
  intros n. auto with silent.
Qed.

Lemma successive_silent self m moments todo i prev samples g_samples :
  silent (Geweke.successive pints self m moments todo i prev samples g_samples).
Proof.
  revert i prev samples g_samples.
  induction todo as [|todo IH]; intros i prev samples g_samples; simpl;
    auto with silent.
Qed.

Lemma setitem_never_raises key v (r : Result) (w : W) e r' w' :
  setitem key v r w <> (Raise e, r', w').
Proof. unfold setitem, modify. discriminate. Qed.

Lemma call_run {S A} (f : W -> outcome A * W) (s : S) w a w1 :
  f w = (Ok a, w1) -> call f s w = (Ok a, s, w1).
Proof. unfold call. now intros ->. Qed.

(** A run that raises did so in its imports, before any write, or between
    its first write and the other two. *)
Lemma Geweke_run_raises self log_path r w e r' w' :
  Geweke._run pints self log_path r w = (Raise e, r', w') ->
  (import_geweke pints w = (Raise e, w') /\ r' = r)
  \/ (exists u w0, import_geweke pints w = (Ok u, w0)
                   /\ r' = <["method" := VStr (Geweke._method self)]> r).
Proof.
  intros H. unfold Geweke._run in H.
  apply bind_Raise in H as [H | (u & r0 & w0 & H0 & H)].
  { left. unfold call in H. destruct (import_geweke pints w) as [o w0].
    injection H as -> -> ->. auto. }
  apply call_Ok in H0 as [-> H0]. right. exists u, w0. split; [exact H0|].
  apply bind_Raise in H as [H | (u1 & r1 & w1 & H1 & H)].
  { now apply setitem_never_raises in H. }
  unfold setitem in H1. apply modify_Ok in H1 as [-> ->].
  revert H. generalize (<["method":=VStr (Geweke._method self)]> r). intros r0 H.
  eapply (raises_clean_bind (S := Result)); [| | exact H]; [auto with silent|].
  intros m.
  repeat (apply raises_clean_bind;
          [ first [ solve [auto using np_empty_silent, successive_silent with silent]
                  | match goal with
                    | |- silent (match ?x with _ => _ end) =>
                        destruct x as [|? [|]]; auto with silent
                    end ]
          | intros ? ]).
  intros s0 w2 e0 s0' w2' H2.
  apply bind_Raise in H2 as [H2 | (u0 & s1 & w3 & _ & H2)];
    now apply setitem_never_raises in H2.
Qed.

(** An allocation with no negative dimension goes to the library. *)
Lemma np_empty_run rows r w :
  returns (n_parameters pints) ->
  (forall w n w', n_parameters pints w = (Ok n, w') -> 0 <= n + 1) ->
  (forall cols, returns (allocate pints rows cols)) ->
  0 <= rows ->
  exists u w1, Geweke.np_empty pints rows r w = (Ok u, r, w1).
Proof.
  intros Hn Hpos Ha Hrows. unfold Geweke.np_empty.
  destruct (Hn w) as (n & w0 & En). rewrite (bind_run _ _ _ _ _ _ _ (call_run _ _ _ _ _ En)).
  destruct (Z.ltb_spec rows 0); [lia|]. simpl.
  destruct (Z.ltb_spec (n + 1) 0); [apply Hpos in En; lia|].
  destruct (Ha (n + 1) w0) as (u & w1 & Ea). exists u, w1.
  now apply call_run.
Qed.

End GewekeRaising.

(** X11. A run of the Geweke test that raises has written neither
    ['p-value'] nor ['status'], and no field but ['method']. When it is the
    imports at its head that raised, the dictionary is as it was and the
    exception is theirs; when the imports returned, the method name is
    stored, and nothing else. *)
Theorem Geweke_failure_keeps_method {W : Type} (pints : Library W)
    (self : Geweke.t) (log_path : str) (r : Result) (w : W) e r' w' :
  Geweke._run pints self log_path r w = (Raise e, r', w') ->
  r' !! "status" = r !! "status"
  /\ r' !! "p-value" = r !! "p-value"
  /\ (forall key, key <> "method"%string -> r' !! key = r !! key)
  /\ (forall e0 w0, import_geweke pints w = (Raise e0, w0) ->
        r' = r /\ e = e0 /\ w' = w0)
  /\ (forall u w0, import_geweke pints w = (Ok u, w0) ->
        r' = <["method" := VStr (Geweke._method self)]> r).
Proof.
  intros H.
  assert (Hkey : forall key, key <> "method"%string -> r' !! key = r !! key).
  { intros key Hk.
    apply Geweke_run_raises in H as [[_ ->] | (u & w0 & _ & ->)];
      [reflexivity | now apply lookup_insert_ne]. }
  split; [now apply Hkey|]. split; [now apply Hkey|]. split; [exact Hkey|].
  apply Geweke_run_raises in H as [[Hi ->] | (u & w0 & Hi & ->)]; split.
  - intros e0 w1 Hi'. rewrite Hi in Hi'. injection Hi' as -> ->. auto.
  - intros u w1 Hi'. rewrite Hi in Hi'. discriminate.
  - intros e0 w1 Hi'. rewrite Hi in Hi'. discriminate.
  - reflexivity.
Qed.

(** A witness of [Geweke_failure_keeps_method]: the sampler fails in the
    first iteration, after the method name is stored. *)
Lemma Geweke_failure_keeps_method_witness :
  (Geweke._run Demo.broken Demo.geweke Demo.log_path ∅ tt).1.2
  = <["method" := VStr (Geweke._method Demo.geweke)]> ∅.
Proof.
  refine (proj2 (proj2 (proj2 (proj2
            (Geweke_failure_keeps_method Demo.broken Demo.geweke
               Demo.log_path ∅ tt LibraryError _ tt _)))) tt tt _).
  - vm_compute. reflexivity.
  - reflexivity.
Defined.

Example Geweke_without_pints :
  Geweke._run Demo.missing Demo.geweke Demo.log_path ∅ tt
  = (Raise ImportError, ∅, tt).
Proof. vm_compute. reflexivity. Qed.

(** X12. The Geweke test needs an iteration: a run that returns has
    [max_iter >= 1]. When the imports, the lookup of the method, the check
    of the chains, the toy problem and [model.n_parameters()] return, a
    negative [max_iter] makes the first allocation raise [ValueError];
    when also the allocations, the samples of the prior and the moments
    return, [max_iter = 0] makes the first row of [theta2_samples] raise
    [IndexError]. In both cases only ['method'] has been written. *)
Theorem Geweke_needs_an_iteration {W : Type} (pints : Library W)
    (self : Geweke.t) (log_path : str) (r : Result) (w : W) :
  (forall u r' w',
      Geweke._run pints self log_path r w = (Ok u, r', w') ->
      1 <= Geweke._max_iter self)
  /\ (Geweke._max_iter self < 0 ->
      setup_returns pints self ->
      exists w',
        Geweke._run pints self log_path r w
        = (Raise ValueError, <["method" := VStr (Geweke._method self)]> r, w'))
  /\ (Geweke._max_iter self = 0 ->
      setup_returns pints self ->
      sampling_returns pints self ->
      exists w',
        Geweke._run pints self log_path r w
        = (Raise IndexError, <["method" := VStr (Geweke._method self)]> r, w')).
Proof.
  split; [|split].
  - intros u r' w' H. now apply Geweke_run_inv in H.
  - intros Hneg (Hi & Hg & Hc & Ht & Hn).
    destruct (Hi w) as (u0 & w0 & E0).
    destruct (Hg w0) as (m & w1 & E1).
    destruct (Hc m w1) as (u2 & w2 & E2).
    destruct (Ht w2) as (u3 & w3 & E3).
    destruct (Hn w3) as (n & w4 & E4).
    exists w4. unfold Geweke._run.
    rewrite (bind_run _ _ _ _ _ _ _ (call_run _ _ _ _ _ E0)).
    rewrite (bind_run _ _ _ _ _ _ _ (eq_refl : setitem _ _ _ _ = (Ok tt, _, _))).
    rewrite (bind_run _ _ _ _ _ _ _ (call_run _ _ _ _ _ E1)).
    rewrite (bind_run _ _ _ _ _ _ _ (call_run _ _ _ _ _ E2)).
    rewrite (bind_run _ _ _ _ _ _ _ (call_run _ _ _ _ _ E3)).
    unfold Geweke.np_empty at 1.
    unfold bind at 1. unfold bind at 1.
    rewrite (call_run _ _ _ _ _ E4).
    apply Z.ltb_lt in Hneg. rewrite Hneg. reflexivity.
  - intros Hz (Hi & Hg & Hc & Ht & Hn) (Hpos & Ha & Hp0 & Hp1 & Hm).
    set (r0 := <["method" := VStr (Geweke._method self)]> r).
    assert (Hrows : 0 <= Geweke._max_iter self) by lia.
    destruct (Hi w) as (u0 & w0 & E0).
    destruct (Hg w0) as (m & w1 & E1).
    destruct (Hc m w1) as (u2 & w2 & E2).
    destruct (Ht w2) as (u3 & w3 & E3).
    destruct (np_empty_run pints _ r0 w3 Hn Hpos Ha Hrows) as (u4 & w4 & E4).
    destruct (Hp0 w4) as (theta1 & w5 & E5).
    destruct (np_empty_run pints _ r0 w5 Hn Hpos Ha Hrows) as (u6 & w6 & E6).
    destruct (np_empty_run pints _ r0 w6 Hn Hpos Ha Hrows) as (u7 & w7 & E7).
    destruct (Hm theta1 w7) as (moments & w8 & E8).
    destruct (np_empty_run pints _ r0 w8 Hn Hpos Ha Hrows) as (u9 & w9 & E9).
    destruct (Hp1 w9) as (first & w10 & E10).
    exists w10. unfold Geweke._run.
    rewrite (bind_run _ _ _ _ _ _ _ (call_run _ _ _ _ _ E0)).
    rewrite (bind_run _ _ _ _ _ _ _ (eq_refl : setitem _ _ _ _ = (Ok tt, _, _))).
    fold r0.
    rewrite (bind_run _ _ _ _ _ _ _ (call_run _ _ _ _ _ E1)).
    rewrite (bind_run _ _ _ _ _ _ _ (call_run _ _ _ _ _ E2)).
    rewrite (bind_run _ _ _ _ _ _ _ (call_run _ _ _ _ _ E3)).
    rewrite (bind_run _ _ _ _ _ _ _ E4).
    rewrite (bind_run _ _ _ _ _ _ _ (call_run _ _ _ _ _ E5)).
    rewrite (bind_run _ _ _ _ _ _ _ E6).
    rewrite (bind_run _ _ _ _ _ _ _ E7).
    rewrite (bind_run _ _ _ _ _ _ _ (call_run _ _ _ _ _ E8)).
    rewrite (bind_run _ _ _ _ _ _ _ E9).
    rewrite (bind_run _ _ _ _ _ _ _ (call_run _ _ _ _ _ E10)).
    unfold bind at 1. rewrite Hz. reflexivity.
Qed.

(** A witness of [Geweke_needs_an_iteration]: a test built with
    [max_iter = 0]. *)
Lemma Geweke_needs_an_iteration_witness :
  exists w',
    Geweke._run Demo.pints Demo.idle_geweke Demo.log_path ∅ tt
    = (Raise IndexError,
       <["method" := VStr (Geweke._method Demo.idle_geweke)]> ∅, w').
Proof.
  apply (proj2 (proj2 (Geweke_needs_an_iteration Demo.pints Demo.idle_geweke
                         Demo.log_path ∅ tt))).
  - reflexivity.
  - repeat split; intros; intros ?; eexists _, _; reflexivity.
  - split; [|repeat split; intros; intros ?; eexists _, _; reflexivity].
    intros w n w' H. injection H as <- _. lia.
Defined.

Example Geweke_negative_iterations :
  Geweke._run Demo.pints
    (Geweke.init (lit "AdaptiveCovarianceMCMC") 1 (1 # 10) (-1)) Demo.log_path ∅ tt
  = (Raise ValueError, <["method" := VStr (lit "AdaptiveCovarianceMCMC")]> ∅, tt).
Proof. vm_compute. reflexivity. Qed.

(* ===================================================================== *)
(** ** More on the banana test                                            *)
(* ===================================================================== *)

Section Slices.

Context {A : Type}.

Lemma slice_length (l : list A) (i j : Z) :
  0 <= i -> 0 <= j ->
  Z.of_nat (length (slice l i j))
  = Z.max 0 (Z.min j (Z.of_nat (length l)) - Z.min i (Z.of_nat (length l))).
Proof.
  intros Hi Hj. unfold slice, clamp.
  destruct (Z.ltb_spec i 0); [lia|]. destruct (Z.ltb_spec j 0); [lia|].
  rewrite length_drop, length_take. lia.
Qed.

Lemma slice_from_length (l : list A) (i : Z) :
  0 <= i ->
  Z.of_nat (length (slice_from l i)) = Z.max 0 (Z.of_nat (length l) - i).
Proof.
  intros Hi. unfold slice_from, clamp.
  destruct (Z.ltb_spec i 0); [lia|]. rewrite length_drop. lia.
Qed.

Lemma Forall2_with_left {B} (P : A -> Prop) (R : A -> B -> Prop) xs ys :
  Forall P xs -> Forall2 R xs ys -> Forall2 (fun x y => P x /\ R x y) xs ys.
Proof.
  intros HP HR. induction HR as [|x y xs ys Hxy HR IH]; constructor.
  - split; [now inversion HP | exact Hxy].
  - apply IH. now inversion HP.
Qed.

End Slices.

Section BananaMore.

Context {W : Type} (pints : Library W).

(** Everything a returning [store_metrics] did, call by call. *)
Lemma store_metrics_inv self n_burn chain r w u r' w' :
  MCMCBanana.store_metrics pints self n_burn chain r w = (Ok u, r', w') ->
  exists iters klds kld ess w1 w2,
    range 0 (Z.of_nat (length chain) - 500 * MCMCBanana._nchains self
             + 20 * MCMCBanana._nchains self)
          (20 * MCMCBanana._nchains self) = Ok iters
    /\ Forall2 (fun i y => exists wa wb,
                  kl_divergence pints
                    (slice chain i (i + 500 * MCMCBanana._nchains self)) wa
                  = (Ok y, wb)) iters klds
    /\ kl_divergence pints
         (slice_from chain (n_burn * MCMCBanana._nchains self)) w1 = (Ok kld, w2)
    /\ effective_sample_size pints
         (slice_from chain (n_burn * MCMCBanana._nchains self)) w2 = (Ok ess, w')
    /\ r' = <["status" := VStr (lit "done")]>
              (<["ess" := VFloats ess]>
                 (<["kld" := VFloat kld]>
                    (<["klds" := VFloats klds]>
                       (<["iters" := VInts iters]> r)))).
Proof.
  intros H. unfold MCMCBanana.store_metrics in H.
  run_step_as H iters r_i w_i Hrange.
  run_step H.
  run_step_as H klds r_k w_k Hklds.
  pose proof (for_each_call_answers _ _ _ _ _ _ _ Hklds) as Hans.
  apply for_each_call_Ok in Hklds as [-> Hlen].
  run_step H.
  run_step_as H kld r_d w_d Hkld.
  run_step H.
  run_step_as H ess r_e w_e Hess.
  run_step H.
  unfold setitem in H. apply modify_Ok in H as [-> ->].
  exists iters, klds, kld, ess, w_k, w_d. auto 10.
Qed.

(** The starts of the windows: multiples of the step, within the chain. *)
Lemma window_starts (c n : Z) iters :
  0 < c -> range 0 (n - 500 * c + 20 * c) (20 * c) = Ok iters ->
  Forall (fun i => 0 <= i < n - 480 * c) iters.
Proof.
  intros Hc Hr. apply Forall_lookup_2. intros k x Hx.
  assert (Hk : (k < length iters)%nat) by (eapply lookup_lt_Some; eauto).
  assert (Hs : 0 < 20 * c) by lia.
  pose proof (range_below_stop 0 _ (20 * c) iters Hs Hr) as Hb.
  rewrite Forall_lookup in Hb. specialize (Hb k x Hx).
  rewrite (range_lookup _ _ _ _ _ Hr Hk) in Hx. injection Hx as <-. nia.
Qed.

Lemma run_sampler_untouched self log_path key :
  key <> "method"%string ->
  untouched key (MCMCBanana.run_sampler pints self log_path).
Proof.
  intros Hk. unfold MCMCBanana.run_sampler. cbv zeta.
  repeat (apply untouched_bind; [auto with untouched | intros ?]).
  auto with untouched.
Qed.

(** Until ['ess'] is written nothing of [store_metrics] writes ['ess'] or
    ['status'], and nothing can raise from then on. *)
Lemma store_metrics_unwritten self n_burn chain key :
  key = "ess"%string \/ key = "status"%string ->
  unwritten_on_raise key (MCMCBanana.store_metrics pints self n_burn chain).
Proof.
  intros Hkey.
  assert (Hne : key <> "iters"%string /\ key <> "klds"%string
                /\ key <> "kld"%string)
    by (destruct Hkey as [-> | ->]; repeat split; discriminate).
  destruct Hne as (N1 & N2 & N3).
  assert (Hb : forall {A B} (c : M Result W A) (k : A -> M Result W B),
             untouched key c -> (forall a, unwritten_on_raise key (k a)) ->
             unwritten_on_raise key (bind c k)).
  { intros A B c k Hc Hk r w e r' w' H.
    apply bind_Raise in H as [H | (a & r1 & w1 & H1 & H)].
    - specialize (Hc r w). now rewrite H in Hc.
    - apply Hk in H. rewrite H. specialize (Hc r w). now rewrite H1 in Hc. }
  unfold MCMCBanana.store_metrics.
  apply Hb; [auto with untouched|]. intros iters.
  apply Hb; [auto with untouched|]. intros _.
  apply Hb; [auto with untouched|]. intros klds.
  apply Hb; [auto with untouched|]. intros _.
  apply Hb; [auto with untouched|]. intros kld.
  apply Hb; [auto with untouched|]. intros _.
  apply Hb; [auto with untouched|]. intros ess.
  intros r w e r' w' H.
  apply bind_Raise in H as [H | (u0 & r1 & w1 & _ & H)];
    now apply setitem_never_raises in H.
Qed.

End BananaMore.

(** X13. A run of the banana test that returns has written ['method'],
    ['iters'], ['klds'], ['kld'], ['ess'] and ['status'] and no other field;
    ['kld'] and then ['ess'] are what the library answered for one and the
    same chain, the woven chain without its first [n_burn * nchains]
    samples, where [n_burn] is [int(max_iter / 2)]: the quotient rounded to
    a float and then truncated, which is the integer quotient truncated
    towards zero when [max_iter] is below [2 ** 53] in absolute value. When
    the product is not negative, the chain that is left has
    [max(0, n_samples - n_burn * nchains)] samples. *)
Theorem banana_result_fields {W : Type} (pints : Library W)
    (self : MCMCBanana.t) (log_path : str) (r : Result) (w : W) u r' w' :
  MCMCBanana._run pints self log_path r w = (Ok u, r', w') ->
  dom r' = {["method"; "iters"; "klds"; "kld"; "ess"; "status"]} ∪ dom r
  /\ (forall key, key ∉ ["method"; "iters"; "klds"; "kld"; "ess"; "status"]%string ->
                  r' !! key = r !! key)
  /\ r' !! "method" = Some (VStr (MCMCBanana._method self))
  /\ exists (chain : matrix) r1 w1 (n_burn : Z) kld ess wa wb,
       MCMCBanana.sample_chain pints self log_path r w = (Ok chain, r1, w1)
       /\ int_half (MCMCBanana._max_iter self) = Ok n_burn
       /\ (Z.abs (MCMCBanana._max_iter self) < 2 ^ 53 ->
           n_burn = Z.quot (MCMCBanana._max_iter self) 2)
       /\ kl_divergence pints
            (slice_from chain (n_burn * MCMCBanana._nchains self)) wa = (Ok kld, wb)
       /\ effective_sample_size pints
            (slice_from chain (n_burn * MCMCBanana._nchains self)) wb = (Ok ess, w')
       /\ r' !! "kld" = Some (VFloat kld)
       /\ r' !! "ess" = Some (VFloats ess)
       /\ (0 <= n_burn * MCMCBanana._nchains self ->
           Z.of_nat (length (slice_from chain (n_burn * MCMCBanana._nchains self)))
           = Z.max 0 (Z.of_nat (length chain)
                      - n_burn * MCMCBanana._nchains self)).
Proof.
  intros H. apply banana_run_Ok in H as (chain & n_burn & r1 & w1 & Hs & Hb & H).
  pose proof (sample_chain_Ok _ _ _ _ _ _ _ _ Hs) as ->.
  apply store_metrics_inv in H
    as (iters & klds & kld & ess & wa & wb & _ & _ & Hkld & Hess & ->).
  split; [rewrite !dom_insert_L; set_solver|].
  split.
  { intros key Hkey. rewrite !lookup_insert_ne; [reflexivity|..];
      intros <-; apply Hkey; set_solver. }
  split; [now rewrite !lookup_insert_ne, lookup_insert_eq by discriminate|].
  exists chain, (<["method" := VStr (MCMCBanana._method self)]> r), w1,
    n_burn, kld, ess, wa, wb.
  split; [exact Hs|]. split; [exact Hb|]. split.
  { intros Hsmall. unfold int_half in Hb.
    destruct (Z.ltb_spec (Z.abs (MCMCBanana._max_iter self)) (2 ^ 53)); [|lia].
    congruence. }
  split; [exact Hkld|]. split; [exact Hess|].
  split; [now rewrite !lookup_insert_ne, lookup_insert_eq by discriminate|].
  split; [now rewrite !lookup_insert_ne, lookup_insert_eq by discriminate|].
  apply slice_from_length.
Qed.

(** A witness of [banana_result_fields]: the run of the small world. *)
Lemma banana_result_fields_witness :
  dom (MCMCBanana._run Demo.pints Demo.banana Demo.log_path ∅ tt).1.2
  = {["method"; "iters"; "klds"; "kld"; "ess"; "status"]} ∪ dom (∅ : Result).
Proof.
  refine (proj1 (banana_result_fields Demo.pints Demo.banana Demo.log_path
                   ∅ tt tt _ tt _)).
  vm_compute. reflexivity.
Defined.

(** X14. A run of the banana test that raises has written neither ['ess']
    nor ['status']. If the imports that open the run failed, the result is
    as it was; if they returned, it holds the method name. *)
Theorem banana_failure_leaves_status {W : Type} (pints : Library W)
    (self : MCMCBanana.t) (log_path : str) (r : Result) (w : W) e r' w' :
  MCMCBanana._run pints self log_path r w = (Raise e, r', w') ->
  r' !! "status" = r !! "status"
  /\ r' !! "ess" = r !! "ess"
  /\ (forall e0 w1, import_names pints w = (Raise e0, w1) -> r' = r)
  /\ (forall u w1, import_names pints w = (Ok u, w1) ->
        r' !! "method" = Some (VStr (MCMCBanana._method self))).
Proof.
  intros H.
  assert (Hkey : forall key, key = "ess"%string \/ key = "status"%string ->
                             r' !! key = r !! key).
  { intros key Hkey. unfold MCMCBanana._run in H.
    apply bind_Raise in H as [H | ([chain n_burn] & r1 & w1 & Hs & H)].
    - pose proof (run_sampler_untouched pints self log_path key) as Hu.
      specialize (Hu ltac:(destruct Hkey as [-> | ->]; discriminate) r w).
      now rewrite H in Hu.
    - apply (store_metrics_unwritten pints self n_burn chain key Hkey) in H.
      rewrite H. apply run_sampler_Ok in Hs as [-> _].
      apply lookup_insert_ne. destruct Hkey as [-> | ->]; discriminate. }
  split; [apply Hkey; auto|]. split; [apply Hkey; auto|]. split.
  - intros e0 w1 Hi. revert H.
    unfold MCMCBanana._run, MCMCBanana.run_sampler, bind, call.
    rewrite Hi. intros H. now injection H as _ <- _.
  - intros u0 w1 Hi. revert H.
    unfold MCMCBanana._run, MCMCBanana.run_sampler.
    rewrite bind_assoc, (bind_run _ _ r w u0 r w1)
      by (unfold call; now rewrite Hi).
    rewrite bind_assoc,
      (bind_run _ _ r w1 tt (<["method" := VStr (MCMCBanana._method self)]> r) w1)
      by reflexivity.
    intros H.
    match type of H with
    | ?c ?s ?w0 = _ =>
        assert (Hu : untouched "method" c);
        [| specialize (Hu s w0); rewrite H in Hu; simpl in Hu; rewrite Hu;
           apply lookup_insert_eq]
    end.
    apply untouched_bind.
    + repeat (apply untouched_bind; [solve [auto with untouched] | intros ?]).
      apply untouched_ret.
    + intros cb. unfold MCMCBanana.store_metrics. cbv zeta.
      repeat (apply untouched_bind; [solve [auto with untouched] | intros ?]).
      apply untouched_setitem. discriminate.
Qed.

(** A witness of [banana_failure_leaves_status]: the divergence of the first
    window fails. *)
Lemma banana_failure_leaves_status_witness :
  (MCMCBanana._run Demo.broken Demo.banana Demo.log_path ∅ tt).1.2 !! "status"
  = (∅ : Result) !! "status".
Proof.
  refine (proj1 (banana_failure_leaves_status Demo.broken Demo.banana
                   Demo.log_path ∅ tt LibraryError _ tt _)).
  vm_compute. reflexivity.
Defined.

(** X15. After a run of the banana test that returns, each entry of
    ['klds'] is the divergence the library gave for the window of the woven
    chain that starts at the entry of ['iters'] with the same index, and
    each window holds more than [480 * nchains] and at most
    [500 * nchains] samples: only the last one can be short. *)
Theorem banana_windows {W : Type} (pints : Library W)
    (self : MCMCBanana.t) (log_path : str) (r : Result) (w : W) u r' w' :
  MCMCBanana._run pints self log_path r w = (Ok u, r', w') ->
  exists (chain : matrix) r1 w1 (iters : list Z) (klds : list Q),
    MCMCBanana.sample_chain pints self log_path r w = (Ok chain, r1, w1)
    /\ r' !! "iters" = Some (VInts iters)
    /\ r' !! "klds" = Some (VFloats klds)
    /\ Forall2
         (fun i kld =>
            (480 * MCMCBanana._nchains self
             < Z.of_nat (length (slice chain i (i + 500 * MCMCBanana._nchains self)))
             <= 500 * MCMCBanana._nchains self)
            /\ exists wa wb,
                 kl_divergence pints
                   (slice chain i (i + 500 * MCMCBanana._nchains self)) wa
                 = (Ok kld, wb))
         iters klds.
Proof.
  intros H. apply banana_run_Ok in H as (chain & n_burn & r1 & w1 & Hs & Hb & H).
  apply store_metrics_inv in H
    as (iters & klds & kld & ess & wa & wb & Hr & Hans & _ & _ & ->).
  exists chain, r1, w1, iters, klds.
  split; [exact Hs|].
  split; [now rewrite !lookup_insert_ne, lookup_insert_eq by discriminate|].
  split; [now rewrite !lookup_insert_ne, lookup_insert_eq by discriminate|].
  set (c := MCMCBanana._nchains self) in *.
  apply Forall2_with_left; [|exact Hans].
  destruct (Z.lt_trichotomy c 0) as [Hc|[Hc|Hc]].
  - assert (iters = []) as ->; [|constructor].
    apply (range_down_empty 0 (Z.of_nat (length chain) - 500 * c + 20 * c)
             (20 * c)); [lia | lia | exact Hr].
  - apply range_Ok in Hr as [Hne _]. lia.
  - eapply Forall_impl; [apply (window_starts c (Z.of_nat (length chain)) iters Hc Hr)|].
    simpl. intros i Hi. rewrite slice_length by lia. lia.
Qed.

(** A witness of [banana_windows]: the run of the small world. *)
Lemma banana_windows_witness :
  exists (chain : matrix) r1 w1 (iters : list Z) (klds : list Q),
    MCMCBanana.sample_chain Demo.pints Demo.banana Demo.log_path ∅ tt
    = (Ok chain, r1, w1)
    /\ (MCMCBanana._run Demo.pints Demo.banana Demo.log_path ∅ tt).1.2 !! "iters"
       = Some (VInts iters)
    /\ (MCMCBanana._run Demo.pints Demo.banana Demo.log_path ∅ tt).1.2 !! "klds"
       = Some (VFloats klds)
    /\ Forall2
         (fun i kld =>
            (480 * MCMCBanana._nchains Demo.banana
             < Z.of_nat (length (slice chain i
                                   (i + 500 * MCMCBanana._nchains Demo.banana)))
             <= 500 * MCMCBanana._nchains Demo.banana)
            /\ exists wa wb,
                 kl_divergence Demo.pints
                   (slice chain i (i + 500 * MCMCBanana._nchains Demo.banana)) wa
                 = (Ok kld, wb))
         iters klds.
Proof.
  refine (banana_windows Demo.pints Demo.banana Demo.log_path ∅ tt tt _ tt _).
  vm_compute. reflexivity.
Defined.

(** X16. When the woven chain has at most [480 * nchains] samples (and
    there is a chain at all), a run that returns has computed no window:
    ['iters'] and ['klds'] are empty lists. *)
Theorem banana_short_chain {W : Type} (pints : Library W)
    (self : MCMCBanana.t) (log_path : str) (r : Result) (w : W)
    (chain : matrix) r1 w1 u r' w' :
  MCMCBanana.sample_chain pints self log_path r w = (Ok chain, r1, w1) ->
  0 < MCMCBanana._nchains self ->
  Z.of_nat (length chain) <= 480 * MCMCBanana._nchains self ->
  MCMCBanana._run pints self log_path r w = (Ok u, r', w') ->
  r' !! "iters" = Some (VInts []) /\ r' !! "klds" = Some (VFloats []).
Proof.
  intros Hs Hc Hlen H. unfold MCMCBanana._run in H.
  apply sample_chain_run in Hs as [n_burn Hs].
  rewrite (bind_run _ _ _ _ _ _ _ Hs) in H. cbn [fst snd] in H.
  apply store_metrics_Ok in H as (iters & klds & kld & ess & Hr & Hl & ->).
  assert (iters = []) as ->.
  { apply length_zero_iff_nil. rewrite (range_length _ _ _ _ Hr).
    unfold range_len. destruct (Z.ltb_spec 0 (20 * MCMCBanana._nchains self)); [|lia].
    destruct (Z.ltb_spec 0 (Z.of_nat (length chain)
                            - 500 * MCMCBanana._nchains self
                            + 20 * MCMCBanana._nchains self)); [lia | reflexivity]. }
  assert (klds = []) as -> by now apply length_zero_iff_nil.
  split; now rewrite !lookup_insert_ne, lookup_insert_eq by discriminate.
Qed.

(** A witness of [banana_short_chain]: one chain of 100 samples. *)
Lemma banana_short_chain_witness :
  (MCMCBanana._run Demo.pints Demo.short_banana Demo.log_path ∅ tt).1.2 !! "iters"
  = Some (VInts [])
  /\ (MCMCBanana._run Demo.pints Demo.short_banana Demo.log_path ∅ tt).1.2 !! "klds"
     = Some (VFloats []).
Proof.
  refine (banana_short_chain Demo.pints Demo.short_banana Demo.log_path ∅ tt
            (replicate 100 [0%Q; 0%Q]) _ tt tt _ tt _ _ _ _).
  - vm_compute. reflexivity.
  - reflexivity.
  - vm_compute. discriminate.
  - vm_compute. reflexivity.
Defined.

(** X17. A banana test with no chains cannot complete: when the sampler
    returns and the chains are woven, the empty step of the windows makes
    the run raise [ValueError], with the method name as the only field
    written. *)
Theorem banana_no_chains {W : Type} (pints : Library W)
    (self : MCMCBanana.t) (log_path : str) (r : Result) (w : W)
    (chain : matrix) r1 w1 :
  MCMCBanana._nchains self = 0 ->
  MCMCBanana.sample_chain pints self log_path r w = (Ok chain, r1, w1) ->
  MCMCBanana._run pints self log_path r w
  = (Raise ValueError, <["method" := VStr (MCMCBanana._method self)]> r, w1).
Proof.
  intros Hc Hs. unfold MCMCBanana._run.
  apply sample_chain_run in Hs as [n_burn Hs].
  rewrite (bind_run _ _ _ _ _ _ _ Hs). cbn [fst snd].
  apply run_sampler_Ok in Hs as [-> _].
  unfold MCMCBanana.store_metrics, bind, eval. rewrite Hc. reflexivity.
Qed.

(** A witness of [banana_no_chains], in the small world. *)
Lemma banana_no_chains_witness :
  MCMCBanana._run Demo.pints Demo.no_chains Demo.log_path ∅ tt
  = (Raise ValueError,
     <["method" := VStr (MCMCBanana._method Demo.no_chains)]> ∅, tt).
Proof.
  refine (banana_no_chains Demo.pints Demo.no_chains Demo.log_path ∅ tt
            [] _ tt eq_refl _).
  vm_compute. reflexivity.
Defined.

(** X18. After a run of the banana test that returns, the analysis of any
    history that ends with its result never fails: it returns whether the
    stored ['kld'] is within [pass_threshold] of zero. *)
Theorem banana_run_then_analyse {W : Type} (pints : Library W)
    (self : MCMCBanana.t) (log_path : str) (r : Result) (w : W) u r' w' :
  MCMCBanana._run pints self log_path r w = (Ok u, r', w') ->
  exists kld,
    r' !! "kld" = Some (VFloat kld)
    /\ forall older : list Result,
         MCMCBanana._analyse self (older ++ [r'])
         = Ok (Qle_bool (Qabs (kld - 0)) (MCMCBanana._pass_threshold self)).
Proof.
  intros H. apply banana_run_Ok in H as (chain & n_burn & r1 & w1 & _ & _ & H).
  apply store_metrics_Ok in H as (iters & klds & kld & ess & _ & _ & Hr').
  assert (Hk : r' !! "kld" = Some (VFloat kld))
    by (subst r'; now rewrite !lookup_insert_ne, lookup_insert_eq by discriminate).
  assert (Ht : is_terminal r' = true)
    by (subst r'; unfold is_terminal; now rewrite lookup_insert_eq).
  exists kld. split; [exact Hk|]. intros older.
  exact (not_deviated_value 0 (MCMCBanana._pass_threshold self)
           (older ++ [r']) "kld" r' (VFloat kld) kld
           (latest_snoc older r' Ht) Hk eq_refl).
Qed.

(** A witness of [banana_run_then_analyse]: the run of the small world
    passes, its divergence of 1/20 being within the threshold of 1/10. *)
Lemma banana_run_then_analyse_witness :
  exists kld,
    (MCMCBanana._run Demo.pints Demo.banana Demo.log_path ∅ tt).1.2 !! "kld"
    = Some (VFloat kld)
    /\ forall older : list Result,
         MCMCBanana._analyse Demo.banana
           (older ++ [(MCMCBanana._run Demo.pints Demo.banana Demo.log_path ∅ tt).1.2])
         = Ok (Qle_bool (Qabs (kld - 0)) (MCMCBanana._pass_threshold Demo.banana)).
Proof.
  refine (banana_run_then_analyse Demo.pints Demo.banana Demo.log_path ∅ tt
            tt _ tt _).
  vm_compute. reflexivity.
Defined.

(** X19. Every field that the plots of the banana test draw is stored by a
    run of that test that returns. *)
Theorem banana_plots_read_stored_fields {W : Type} (pints : Library W)
    (self : MCMCBanana.t) (log_path : str) (r : Result) (w : W) u r' w'
    (results : list Result) :
  MCMCBanana._run pints self log_path r w = (Ok u, r', w') ->
  Forall (fun fig => Forall (fun field => is_Some (r' !! field)) (fields_read fig))
         (MCMCBanana._plot self results).
Proof.
  intros H. apply banana_run_Ok in H as (chain & n_burn & r1 & w1 & _ & _ & H).
  apply store_metrics_Ok in H as (iters & klds & kld & ess & _ & _ & ->).
  unfold MCMCBanana._plot. repeat constructor; simpl;
    rewrite ?lookup_insert_ne by discriminate;
    rewrite lookup_insert_eq; eauto.
Qed.

(** A witness of [banana_plots_read_stored_fields], in the small world. *)
Lemma banana_plots_read_stored_fields_witness :
  Forall (fun fig =>
            Forall (fun field =>
                      is_Some ((MCMCBanana._run Demo.pints Demo.banana
                                  Demo.log_path ∅ tt).1.2 !! field))
                   (fields_read fig))
         (MCMCBanana._plot Demo.banana []).
Proof.
  refine (banana_plots_read_stored_fields Demo.pints Demo.banana Demo.log_path
            ∅ tt tt _ tt [] _).
  vm_compute. reflexivity.
Defined.

(** X20. None of the fields that the plots of the Geweke test draw
    (['kld'], ['iters'], ['klds'], ['ess']) is ever written by a run of
    that test, however the run ends. *)
Theorem Geweke_plots_read_unwritten_fields {W : Type} (pints : Library W)
    (self : Geweke.t) (log_path : str) (results : list Result) :
  Forall (fun fig =>
            Forall (fun field => untouched field (Geweke._run pints self log_path))
                   (fields_read fig))
         (Geweke._plot self results).
Proof.
  unfold Geweke._plot.
  repeat constructor; simpl; apply Geweke_run_untouched; discriminate.
Qed.

(** X21. [PYTHON_VERSION] holds no newline; it is [sys.version] itself when
    that holds none, and it keeps the other characters in their order: the
    version of a text cut at any place is made of the versions of its two
    parts. *)
Theorem PYTHON_VERSION_is_one_line (sys_version : str) :
  (10%N ∉ PYTHON_VERSION sys_version)
  /\ ((10%N ∉ sys_version) -> PYTHON_VERSION sys_version = sys_version)
  /\ (forall a b : str,
        PYTHON_VERSION (a ++ [10%N] ++ b) = PYTHON_VERSION a ++ PYTHON_VERSION b)
  /\ (forall a b : str,
        PYTHON_VERSION (a ++ b) = PYTHON_VERSION a ++ PYTHON_VERSION b).
Proof.
  unfold PYTHON_VERSION. split; [|split; [|split]].
  - intros Hin. apply list_elem_of_In, List.filter_In in Hin as [_ Hc].
    discriminate.
  - intros Hn. induction sys_version as [|c s IH]; simpl; [reflexivity|].
    destruct (N.eqb_spec c 10) as [->|Hc]; simpl.
    + exfalso. apply Hn. apply elem_of_cons. now left.
    + f_equal. apply IH. intros Hin. apply Hn. apply elem_of_cons. now right.
  - intros a b. now rewrite !List.filter_app.
  - intros a b. apply List.filter_app.
Qed.

Example PYTHON_VERSION_of_cpython :
  PYTHON_VERSION (lit "3.6.5 (default, Apr  1 2018, 05:46:30) " ++ [10%N]
                  ++ lit "[GCC 7.3.0]")
  = lit "3.6.5 (default, Apr  1 2018, 05:46:30) [GCC 7.3.0]".
Proof. vm_compute. reflexivity. Qed.

(* ===================================================================== *)
(** ** The successive-conditional simulator                               *)
(* ===================================================================== *)

Section Protocol.

Context {W : Type} (api : Sampler.Api W).

Lemma rounds_S n : rounds (S n) = [Ask; Tell] ++ rounds n.
Proof. reflexivity. Qed.

(** A listed call that returned: the call itself returned, and the list
    grew by its note. *)
Lemma call_noting_Ok {A} (c : option sampler_call) (f : W -> outcome A * W)
    (s : unit) w tr a s' w' tr' :
  call (noting c f) s (w, tr) = (Ok a, s', (w', tr')) ->
  call f s w = (Ok a, s', w')
  /\ tr' = match c with Some x => tr ++ [x] | None => tr end.
Proof.
  unfold call, noting. simpl. destruct (f w) as [o w1].
  intros H. injection H as -> -> -> ->. auto.
Qed.

Lemma scores_listing lp xs (s : unit) w tr fxs s' w' tr' :
  for_each (fun xi => call (Sampler.log_posterior (listing api) lp xi)) xs s (w, tr)
  = (Ok fxs, s', (w', tr')) ->
  for_each (fun xi => call (Sampler.log_posterior api lp xi)) xs s w
  = (Ok fxs, s', w')
  /\ tr' = tr.
Proof.
  revert s w tr fxs s' w' tr'.
  induction xs as [|x xs IH]; simpl; intros s w tr fxs s' w' tr' H.
  - unfold ret in *. injection H as <- <- <- <-. auto.
  - apply bind_Ok in H as (y & s1 & [w1 tr1] & Hc & H).
    apply (call_noting_Ok None) in Hc as [Hc ->].
    apply bind_Ok in H as (ys & s2 & [w2 tr2] & Hr & H).
    apply IH in Hr as [Hr ->].
    unfold ret in H. injection H as <- <- <- <-.
    rewrite (bind_run _ _ _ _ _ _ _ Hc), (bind_run _ _ _ _ _ _ _ Hr). auto.
Qed.

Lemma tell_posterior_listing multi mc lp x (s : unit) w tr out s' w' tr' :
  Geweke.tell_posterior (listing api) multi mc lp x s (w, tr)
  = (Ok out, s', (w', tr')) ->
  Geweke.tell_posterior api multi mc lp x s w = (Ok out, s', w')
  /\ tr' = tr ++ [Tell].
Proof.
  unfold Geweke.tell_posterior. destruct multi; intros H.
  - apply bind_Ok in H as (xs & s1 & [w1 tr1] & He & H).
    apply eval_Ok in He as (He & -> & Hw). injection Hw as -> ->.
    apply bind_Ok in H as (fxs & s2 & [w2 tr2] & Hs & H).
    apply scores_listing in Hs as [Hs ->].
    apply (call_noting_Ok (Some Tell)) in H as [H ->].
    rewrite (bind_run _ _ s w xs s w) by (unfold eval; now rewrite He).
    rewrite (bind_run _ _ _ _ _ _ _ Hs). auto.
  - apply bind_Ok in H as (fx & s1 & [w1 tr1] & Hc & H).
    apply (call_noting_Ok None) in Hc as [Hc ->].
    apply (call_noting_Ok (Some Tell)) in H as [H ->].
    rewrite (bind_run _ _ _ _ _ _ _ Hc). auto.
Qed.

Lemma initial_phase_listing multi mc lp todo (s : unit) w tr u s' w' tr' :
  Geweke.initial_phase (listing api) multi mc lp todo s (w, tr)
  = (Ok u, s', (w', tr')) ->
  Geweke.initial_phase api multi mc lp todo s w = (Ok u, s', w')
  /\ tr' = tr ++ rounds todo.
Proof.
  revert s w tr. induction todo as [|todo IH]; simpl; intros s w tr H.
  - unfold ret in *. injection H as <- <- <- <-.
    split; [reflexivity | now rewrite app_nil_r].
  - apply bind_Ok in H as (x & s1 & [w1 tr1] & Ha & H).
    apply (call_noting_Ok (Some Ask)) in Ha as [Ha ->].
    apply bind_Ok in H as (y & s2 & [w2 tr2] & Ht & H).
    apply tell_posterior_listing in Ht as [Ht ->].
    apply IH in H as [H ->].
    rewrite (bind_run _ _ _ _ _ _ _ Ha), (bind_run _ _ _ _ _ _ _ Ht).
    split; [exact H|]. rewrite rounds_S, <- !app_assoc. reflexivity.
Qed.

End Protocol.

(** X22. One step of the successive-conditional simulator makes these calls
    on the sampler, in this order: it builds the sampler (with the number
    of chains when [issubclass(method, pints.MultiChainMCMC)] holds) and
    asks whether it needs an initial phase; when the sampler answers that
    it does, the step switches the phase on, makes [_initial_phase_iter]
    rounds of [ask] then [tell], and switches the phase off, and when the
    sampler answers that it does not, none of these calls is made; then
    [replace], [ask] and [tell]. Listing the calls changes neither the
    sample returned nor the world. *)
Theorem simulator_protocol {W : Type} (api : Sampler.Api W)
    (self : Geweke.t) (method : Sampler.method api) (parameters : vector)
    (w : W) (tr : list sampler_call) out s' w' tr' :
  Geweke._successive_conditional_simulator (listing api) self method parameters
    tt (w, tr) = (Ok out, s', (w', tr')) ->
  Geweke._successive_conditional_simulator api self method parameters tt w
  = (Ok out, tt, w')
  /\ exists lp w1 (multi : bool) mc w3 (needs : bool) w4,
       Sampler.make_posterior api parameters w = (Ok lp, w1)
       /\ Sampler.issubclass_multi api method = Ok multi
       /\ (if multi
           then Sampler.new_multi api method (Geweke._nchains self) parameters
           else Sampler.new_single api method parameters) w1 = (Ok mc, w3)
       /\ Sampler.needs_initial_phase api mc w3 = (Ok needs, w4)
       /\ tr' = tr ++ simulator_calls needs
                        (Z.to_nat (Geweke._initial_phase_iter self)).
Proof.
  intros H. unfold Geweke._successive_conditional_simulator in *.
  apply bind_Ok in H as (lp & s1 & [w1 tr1] & Hlp & H).
  apply (call_noting_Ok None) in Hlp as [Hlp ->].
  rewrite (bind_run _ _ _ _ _ _ _ Hlp).
  pose proof (proj2 (call_Ok _ _ _ _ _ _ Hlp)) as Alp.
  apply bind_Ok in H as (multi & s2 & [w2 tr2] & Hm & H).
  apply eval_Ok in Hm as (Hm & -> & Hw). injection Hw as -> ->.
  simpl in Hm.
  rewrite (bind_run _ _ s1 w1 multi s1 w1) by (unfold eval; now rewrite Hm).
  apply bind_Ok in H as (mc & s3 & [w3 tr3] & Hnew & H).
  assert (Hnew' : (if multi
                   then call (Sampler.new_multi api method (Geweke._nchains self) parameters)
                   else call (Sampler.new_single api method parameters)) s1 w1
                  = (Ok mc, s3, w3) /\ tr3 = tr ++ [New]).
  { destruct multi; now apply (call_noting_Ok (Some New)) in Hnew. }
  destruct Hnew' as [Hnew' ->]. rewrite (bind_run _ _ _ _ _ _ _ Hnew').
  assert (Anew : (if multi
                  then Sampler.new_multi api method (Geweke._nchains self) parameters
                  else Sampler.new_single api method parameters) w1 = (Ok mc, w3))
    by (destruct multi; exact (proj2 (call_Ok _ _ _ _ _ _ Hnew'))).
  apply bind_Ok in H as (needs & s4 & [w4 tr4] & Hneeds & H).
  apply (call_noting_Ok (Some NeedsInitialPhase)) in Hneeds as [Hneeds ->].
  rewrite (bind_run _ _ _ _ _ _ _ Hneeds).
  pose proof (proj2 (call_Ok _ _ _ _ _ _ Hneeds)) as Aneeds.
  apply bind_Ok in H as (u5 & s5 & [w5 tr5] & Hphase & H).
  assert (Hphase' :
            (if needs
             then bind (call (Sampler.set_initial_phase api mc true))
                    (fun _ => bind (Geweke.initial_phase api multi mc lp
                                      (Z.to_nat (Geweke._initial_phase_iter self)))
                                (fun _ => call (Sampler.set_initial_phase api mc false)))
             else ret tt) s4 w4 = (Ok u5, s5, w5)
            /\ tr5 = (tr ++ [New] ++ [NeedsInitialPhase])
                     ++ (if needs
                         then [SetInitialPhase true]
                              ++ rounds (Z.to_nat (Geweke._initial_phase_iter self))
                              ++ [SetInitialPhase false]
                         else [])).
  { destruct needs.
    - apply bind_Ok in Hphase as (u6 & s6 & [w6 tr6] & Hon & Hphase).
      apply (call_noting_Ok (Some (SetInitialPhase true))) in Hon as [Hon ->].
      apply bind_Ok in Hphase as (u7 & s7 & [w7 tr7] & Hloop & Hoff).
      apply initial_phase_listing in Hloop as [Hloop ->].
      apply (call_noting_Ok (Some (SetInitialPhase false))) in Hoff as [Hoff ->].
      rewrite (bind_run _ _ _ _ _ _ _ Hon), (bind_run _ _ _ _ _ _ _ Hloop).
      split; [exact Hoff|]. rewrite <- !app_assoc. reflexivity.
    - unfold ret in *. injection Hphase as <- <- <- <-.
      split; [reflexivity|]. now rewrite app_nil_r, <- app_assoc. }
  destruct Hphase' as [Hphase' ->]. rewrite (bind_run _ _ _ _ _ _ _ Hphase').
  apply bind_Ok in H as (fp & s6 & [w6 tr6] & Hfp & H).
  apply (call_noting_Ok None) in Hfp as [Hfp ->].
  rewrite (bind_run _ _ _ _ _ _ _ Hfp).
  apply bind_Ok in H as (u7 & s7 & [w7 tr7] & Hrep & H).
  apply (call_noting_Ok (Some Replace)) in Hrep as [Hrep ->].
  rewrite (bind_run _ _ _ _ _ _ _ Hrep).
  apply bind_Ok in H as (x & s8 & [w8 tr8] & Hask & H).
  apply (call_noting_Ok (Some Ask)) in Hask as [Hask ->].
  rewrite (bind_run _ _ _ _ _ _ _ Hask).
  apply tell_posterior_listing in H as [H ->].
  split.
  - destruct s'. exact H.
  - exists lp, w1, multi, mc, w3, needs, w4.
    repeat (split; [assumption|]).
    unfold simulator_calls. rewrite <- !app_assoc. reflexivity.
Qed.

Example simulator_demo_calls :
  (Geweke._successive_conditional_simulator (listing Demo.sampler)
     (Geweke.init (lit "AdaptiveCovarianceMCMC") 1 (1 # 10) 3)
     (lit "AdaptiveCovarianceMCMC") [0%Q; 0%Q] tt (tt, [])).2.2
  = simulator_calls true 200.
Proof. vm_compute. reflexivity. Qed.

(** A witness of [simulator_protocol]: a sampler that needs its initial
    phase makes two hundred rounds. *)
Lemma simulator_protocol_witness :
  Geweke._successive_conditional_simulator Demo.sampler Demo.geweke
    (lit "AdaptiveCovarianceMCMC") [0%Q; 0%Q] tt tt
  = (Ok [0%Q; 0%Q], tt, tt)
  /\ exists lp w1 (multi : bool) mc w3 (needs : bool) w4,
       Sampler.make_posterior Demo.sampler [0%Q; 0%Q] tt = (Ok lp, w1)
       /\ Sampler.issubclass_multi Demo.sampler (lit "AdaptiveCovarianceMCMC")
          = Ok multi
       /\ (if multi
           then Sampler.new_multi Demo.sampler (lit "AdaptiveCovarianceMCMC")
                  (Geweke._nchains Demo.geweke) [0%Q; 0%Q]
           else Sampler.new_single Demo.sampler (lit "AdaptiveCovarianceMCMC")
                  [0%Q; 0%Q]) w1 = (Ok mc, w3)
       /\ Sampler.needs_initial_phase Demo.sampler mc w3 = (Ok needs, w4)
       /\ simulator_calls true 200
          = [] ++ simulator_calls needs
                    (Z.to_nat (Geweke._initial_phase_iter Demo.geweke)).
Proof.
  refine (simulator_protocol Demo.sampler Demo.geweke
            (lit "AdaptiveCovarianceMCMC") [0%Q; 0%Q] tt [] [0%Q; 0%Q] tt tt
            (simulator_calls true 200) _).
  vm_compute. reflexivity.
Defined.

(** X23. The sample a step of the simulator returns is what [tell]
    answered for the last proposal; when [isinstance(method,
    pints.MultiChainMCMC)] is false, as it is for a class, that [tell] is
    given one score, the posterior of the whole proposal, whether or not
    the method is a multi-chain one. *)
Theorem simulator_last_tell {W : Type} (api : Sampler.Api W)
    (self : Geweke.t) (method : Sampler.method api) (parameters : vector)
    (s : unit) (w : W) out s' w' :
  Geweke._successive_conditional_simulator api self method parameters s w
  = (Ok out, s', w') ->
  exists mc lp x wa wb,
    Sampler.ask api mc wa = (Ok x, wb)
    /\ Geweke.tell_posterior api (Sampler.isinstance_multi api method) mc lp x s wb
       = (Ok out, s', w')
    /\ (Sampler.isinstance_multi api method = false ->
        exists fx wc,
          Sampler.log_posterior api lp x wb = (Ok fx, wc)
          /\ Sampler.tell api mc (Sampler.One fx) wc = (Ok out, w')).
Proof.
  intros H. unfold Geweke._successive_conditional_simulator in H.
  apply bind_Ok in H as (lp & s1 & w1 & _ & H).
  apply bind_Ok in H as (multi & s2 & w2 & _ & H).
  apply bind_Ok in H as (mc & s3 & w3 & _ & H).
  apply bind_Ok in H as (needs & s4 & w4 & _ & H).
  apply bind_Ok in H as (u5 & s5 & w5 & _ & H).
  apply bind_Ok in H as (fp & s6 & w6 & _ & H).
  apply bind_Ok in H as (u7 & s7 & w7 & _ & H).
  apply bind_Ok in H as (x & s8 & w8 & Hask & H).
  apply call_Ok in Hask as [-> Hask].
  destruct s, s7.
  exists mc, lp, x, w7, w8. split; [exact Hask|]. split; [exact H|].
  intros Hi. rewrite Hi in H. unfold Geweke.tell_posterior in H.
  apply bind_Ok in H as (fx & s9 & w9 & Hfx & H).
  apply call_Ok in Hfx as [-> Hfx]. apply call_Ok in H as [_ H].
  exists fx, w9. auto.
Qed.

(** A witness of [simulator_last_tell], with the sampler that stands
    still. *)
Lemma simulator_last_tell_witness :
  exists mc lp x wa wb,
    Sampler.ask Demo.sampler mc wa = (Ok x, wb)
    /\ Geweke.tell_posterior Demo.sampler
         (Sampler.isinstance_multi Demo.sampler (lit "AdaptiveCovarianceMCMC"))
         mc lp x tt wb
       = (Ok [0%Q; 0%Q], tt, tt)
    /\ (Sampler.isinstance_multi Demo.sampler (lit "AdaptiveCovarianceMCMC") = false ->
        exists fx wc,
          Sampler.log_posterior Demo.sampler lp x wb = (Ok fx, wc)
          /\ Sampler.tell Demo.sampler mc (Sampler.One fx) wc
             = (Ok [0%Q; 0%Q], tt)).
Proof.
  refine (simulator_last_tell Demo.sampler Demo.geweke
            (lit "AdaptiveCovarianceMCMC") [0%Q; 0%Q] tt tt [0%Q; 0%Q] tt tt _).
  vm_compute. reflexivity.
Defined.
